(** * Jobly: SQL helpers and the Job model

    A shallow embedding of [helpers/sql.js] ([sqlForPartialUpdate]) and of
    [models/job.js] ([Job.create], [Job.findAll], [Job.get], [Job.update],
    [Job.remove]), with the store reached through an abstract [db.query];
    of [middleware/auth.js], of the job routes of [routes/jobs.js] with
    their middleware chain, and of the Job model without equity conversion
    kept in [unnamed/part_002]. *)

From Stdlib Require Import String Ascii List ZArith Bool Lia.
Import ListNotations.
Open Scope string_scope.

(** ** JavaScript values *)

(** A JS number: NaN, an infinity, or a finite decimal [m * 10^-e]
    (the decimal the value was written as, before rounding to binary64). *)
Inductive jsnum :=
| NaN
| Inf (neg : bool)
| Fin (m : Z) (e : nat).

(** The values the code handles.  [JFun name] is a built-in function and
    [JObject] an object other than the ones used as maps below. *)
Inductive jsval :=
| JUndefined
| JNull
| JBool (b : bool)
| JNum (n : jsnum)
| JStr (s : string)
| JFun (name : string)
| JObject.

Definition jsnum_eq_dec (x y : jsnum) : {x = y} + {x <> y}.
Proof. decide equality; first [apply Nat.eq_dec | apply Z.eq_dec | apply bool_dec]. Defined.

Definition jsval_eq_dec (x y : jsval) : {x = y} + {x <> y}.
Proof.
  decide equality;
    first [apply string_dec | apply jsnum_eq_dec | apply bool_dec].
Defined.

(** [x === y] on the values above (NaN is never strictly equal to itself).
    Numbers are compared as written, so two spellings of one value
    ([Fin 10 2] and [Fin 1 1]) compare unequal here although [===] finds
    them equal; [JObject] carries no identity, so two of them compare equal
    here although [===] compares objects by identity. *)
Definition strict_eq (x y : jsval) : bool :=
  match x, y with
  | JNum NaN, _ | _, JNum NaN => false
  | _, _ => if jsval_eq_dec x y then true else false
  end.

(** ToBoolean. *)
Definition truthy (v : jsval) : bool :=
  match v with
  | JUndefined | JNull => false
  | JBool b => b
  | JNum NaN => false
  | JNum (Inf _) => true
  | JNum (Fin m _) => negb (Z.eqb m 0)
  | JStr s => negb (String.eqb s "")
  | JFun _ | JObject => true
  end.

(** ** Decimal rendering *)

Definition digit_char (d : nat) : ascii := ascii_of_nat (48 + d).

Fixpoint digits_fuel (fuel n : nat) (acc : string) : string :=
  match fuel with
  | O => acc
  | S f =>
      let acc' := String (digit_char (n mod 10)) acc in
      if Nat.ltb n 10 then acc' else digits_fuel f (n / 10) acc'
  end.

(** Decimal text of a natural number, as a template literal prints it. *)
Definition nat_to_string (n : nat) : string := digits_fuel (S n) n "".

Definition Z_to_string (z : Z) : string :=
  match z with
  | Zneg p => "-" ++ nat_to_string (Pos.to_nat p)
  | _ => nat_to_string (Z.to_nat z)
  end.

Fixpoint strip_zeros (fuel : nat) (m : Z) (e : nat) : Z * nat :=
  match fuel, e with
  | S f, S e' => if Z.eqb (Z.rem m 10) 0 then strip_zeros f (Z.quot m 10) e' else (m, e)
  | _, _ => (m, e)
  end.

Definition pad_left (w : nat) (s : string) : string :=
  let fix zeros k := match k with O => "" | S k' => String "0" (zeros k') end in
  zeros (w - String.length s) ++ s.

(** Number::toString for the finite decimals of the model. *)
Definition num_to_string (n : jsnum) : string :=
  match n with
  | NaN => "NaN"
  | Inf true => "-Infinity"
  | Inf false => "Infinity"
  | Fin m e =>
      let '(m', e') := strip_zeros e m e in
      match e' with
      | O => Z_to_string m'
      | S _ =>
          let a := Z.to_nat (Z.abs m') in
          let p := Nat.pow 10 e' in
          (if Z.ltb m' 0 then "-" else "")
            ++ nat_to_string (a / p) ++ "." ++ pad_left e' (nat_to_string (a mod p))
      end
  end.

(** Source text of a built-in function, as [String(f)] prints it. *)
Definition native_fun_text (name : string) : string :=
  "function " ++ name ++ "() { [native code] }".

(** ToString, as a template literal applies it. *)
Definition js_to_string (v : jsval) : string :=
  match v with
  | JUndefined => "undefined"
  | JNull => "null"
  | JBool true => "true"
  | JBool false => "false"
  | JNum n => num_to_string n
  | JStr s => s
  | JFun name => native_fun_text name
  | JObject => "[object Object]"
  end.

(** ** Objects used as maps

    An object is the list of its own enumerable properties in property
    order, the order [Object.keys] and [Object.values] report. *)
Definition obj := list (string * jsval).

Definition obj_keys (o : obj) : list string := map fst o.
Definition obj_values (o : obj) : list jsval := map snd o.

Fixpoint own_prop (o : obj) (k : string) : option jsval :=
  match o with
  | [] => None
  | (k', v) :: o' => if String.eqb k k' then Some v else own_prop o' k
  end.

(** Members every object literal inherits from [Object.prototype]. *)
Definition object_prototype_member (k : string) : jsval :=
  if in_dec string_dec k
       ["toString"; "valueOf"; "hasOwnProperty"; "isPrototypeOf";
        "propertyIsEnumerable"; "toLocaleString"; "__defineGetter__";
        "__defineSetter__"; "__lookupGetter__"; "__lookupSetter__"]
  then JFun k
  else if String.eqb k "constructor" then JFun "Object"
  else if String.eqb k "__proto__" then JObject
  else JUndefined.

(** [o[k]] on an object literal: own property, then the prototype chain. *)
Definition obj_get (o : obj) (k : string) : jsval :=
  match own_prop o k with
  | Some v => v
  | None => object_prototype_member k
  end.

(** [o[k] = v]: an existing own property is overwritten in place, a new
    one is added last. *)
Fixpoint obj_set (o : obj) (k : string) (v : jsval) : obj :=
  match o with
  | [] => [(k, v)]
  | (k', v') :: o' => if String.eqb k k' then (k', v) :: o' else (k', v') :: obj_set o' k v
  end.

(** [Array.prototype.join]. *)
Fixpoint join (sep : string) (l : list string) : string :=
  match l with
  | [] => ""
  | [x] => x
  | x :: l' => x ++ sep ++ join sep l'
  end.

(** ** Errors thrown by the code *)
Inductive err :=
| BadRequestError (msg : string)
| NotFoundError (msg : string)
| TypeError
| StoreError.

(** ** helpers/sql.js *)

Definition dquote : string := String "034"%char EmptyString.

(** [jsToSql[colName] || colName], as interpolated in the template. *)
Definition resolve (jsToSql : obj) (colName : string) : string :=
  let v := obj_get jsToSql colName in
  if truthy v then js_to_string v else colName.

(** One element of [cols]: [`"${jsToSql[colName] || colName}"=$${idx + 1}`]. *)
Definition set_col (col : string) (idx : nat) : string :=
  dquote ++ col ++ dquote ++ "=$" ++ nat_to_string (idx + 1).

(** [keys.map((colName, idx) => ...)], starting at index [idx]. *)
Fixpoint map_cols (jsToSql : obj) (idx : nat) (keys : list string) : list string :=
  match keys with
  | [] => []
  | colName :: keys' => set_col (resolve jsToSql colName) idx :: map_cols jsToSql (S idx) keys'
  end.

Record partial_update := { setCols : string; values : list jsval }.

Definition sqlForPartialUpdate (dataToUpdate jsToSql : obj) : err + partial_update :=
  let keys := obj_keys dataToUpdate in
  if Nat.eqb (length keys) 0 then inl (BadRequestError "No data")
  else inr {| setCols := join ", " (map_cols jsToSql 0 keys);
              values := obj_values dataToUpdate |}.

Example sql_single :
  sqlForPartialUpdate [("firstName", JStr "John")] [("firstName", JStr "first_name")]
  = inr {| setCols := dquote ++ "first_name" ++ dquote ++ "=$1"; values := [JStr "John"] |}.
Proof. reflexivity. Qed.

Example sql_multi :
  sqlForPartialUpdate [("firstName", JStr "John"); ("age", JNum (Fin 30 0))]
                      [("firstName", JStr "first_name")]
  = inr {| setCols := dquote ++ "first_name" ++ dquote ++ "=$1, "
                      ++ dquote ++ "age" ++ dquote ++ "=$2";
           values := [JStr "John"; JNum (Fin 30 0)] |}.
Proof. reflexivity. Qed.

(** ** parseFloat *)

Definition is_digit (c : ascii) : bool :=
  let n := nat_of_ascii c in Nat.leb 48 n && Nat.leb n 57.

Definition is_ws (c : ascii) : bool :=
  let n := nat_of_ascii c in
  Nat.eqb n 32 || (Nat.leb 9 n && Nat.leb n 13) || Nat.eqb n 160.

Fixpoint skip_ws (s : string) : string :=
  match s with
  | String c s' => if is_ws c then skip_ws s' else s
  | EmptyString => EmptyString
  end.

(** Leading decimal digits: their value, their count and the rest. *)
Fixpoint read_digits (s : string) (acc : Z) (cnt : nat) : Z * nat * string :=
  match s with
  | String c s' =>
      if is_digit c
      then read_digits s' (acc * 10 + Z.of_nat (nat_of_ascii c - 48)) (S cnt)
      else (acc, cnt, s)
  | EmptyString => (acc, cnt, s)
  end.

Local Open Scope Z_scope.

(** An exponent part [e[+-]digits]; [0] when there is none. *)
Definition read_exponent (s : string) : Z :=
  match s with
  | String c s' =>
      if (Ascii.eqb c "e"%char || Ascii.eqb c "E"%char) then
        let '(neg, s'') :=
          match s' with
          | String "-"%char r => (true, r)
          | String "+"%char r => (false, r)
          | _ => (false, s')
          end in
        let '(v, cnt, _) := read_digits s'' 0 O in
        if Nat.eqb cnt O then 0 else if neg then - v else v
      else 0
  | EmptyString => 0
  end.

(** [parseFloat]: the longest prefix of the trimmed text that is a decimal
    literal (or [Infinity]); NaN when there is none. *)
Definition parseFloat (str : string) : jsnum :=
  let s := skip_ws str in
  let '(neg, s) :=
    match s with
    | String "-"%char r => (true, r)
    | String "+"%char r => (false, r)
    | _ => (false, s)
    end in
  if String.prefix "Infinity" s then Inf neg
  else
    let '(ip, icnt, r) := read_digits s 0 O in
    let '(fp, fcnt, r') :=
      match r with
      | String "."%char r1 => read_digits r1 0 O
      | _ => (0, O, r)
      end in
    if Nat.eqb (Nat.add icnt fcnt) 0 then NaN
    else
      let m := ip * 10 ^ Z.of_nat fcnt + fp in
      let m := if neg then - m else m in
      let x := read_exponent r' in
      if Z.leb 0 x then
        if Z.leb x (Z.of_nat fcnt) then Fin m (Nat.sub fcnt (Z.to_nat x))
        else Fin (m * 10 ^ (x - Z.of_nat fcnt)) 0
      else Fin m (Nat.add fcnt (Z.to_nat (- x))).

Local Close Scope Z_scope.

Example parseFloat_numeric : parseFloat "0.10" = Fin 10 2.
Proof. reflexivity. Qed.

(** The conversion every read path applies to the returned row:
    [if (job.equity !== null) job.equity = parseFloat(job.equity);] *)
Definition normalize_equity (job : obj) : obj :=
  let eq := obj_get job "equity" in
  if strict_eq eq JNull then job
  else obj_set job "equity" (JNum (parseFloat (js_to_string eq))).

(** ** Job.findAll: statement construction *)

Record job_filters := {
  title : jsval;
  minSalary : jsval;
  hasEquity : jsval;
  companyHandle : jsval
}.

(** [findAll()] and [findAll({})]: every criterion undefined. *)
Definition no_filters : job_filters :=
  {| title := JUndefined; minSalary := JUndefined;
     hasEquity := JUndefined; companyHandle := JUndefined |}.

(** The locals [whereExpressions] and [queryValues]. *)
Record where_state := { whereExpressions : list string; queryValues : list jsval }.

Definition push_value (st : where_state) (v : jsval) : where_state :=
  {| whereExpressions := whereExpressions st; queryValues := queryValues st ++ [v] |}.

Definition push_where (st : where_state) (e : string) : where_state :=
  {| whereExpressions := whereExpressions st ++ [e]; queryValues := queryValues st |}.

(** [`$${queryValues.length}`] *)
Definition placeholder (st : where_state) : string :=
  "$" ++ nat_to_string (length (queryValues st)).

Definition add_title (f : job_filters) (st : where_state) : where_state :=
  if truthy (title f) then
    let st := push_value st (JStr ("%" ++ js_to_string (title f) ++ "%")) in
    push_where st ("title ILIKE " ++ placeholder st)
  else st.

Definition add_minSalary (f : job_filters) (st : where_state) : where_state :=
  if negb (strict_eq (minSalary f) JUndefined) then
    let st := push_value st (minSalary f) in
    push_where st ("salary >= " ++ placeholder st)
  else st.

Definition add_hasEquity (f : job_filters) (st : where_state) : where_state :=
  if strict_eq (hasEquity f) (JBool true) then push_where st "equity > 0" else st.

Definition add_companyHandle (f : job_filters) (st : where_state) : where_state :=
  if truthy (companyHandle f) then
    let st := push_value st (companyHandle f) in
    push_where st ("company_handle = " ++ placeholder st)
  else st.

Definition findAll_where (f : job_filters) : where_state :=
  add_companyHandle f (add_hasEquity f (add_minSalary f (add_title f
    {| whereExpressions := []; queryValues := [] |}))).

Definition findAll_select : string :=
  "SELECT id, title, salary, equity, company_handle
                 FROM jobs".

(** The statement text and parameters [Job.findAll] passes to [db.query]. *)
Definition findAll_query (f : job_filters) : string * list jsval :=
  let st := findAll_where f in
  let query := findAll_select in
  let query :=
    if Nat.ltb 0 (length (whereExpressions st))
    then query ++ " WHERE " ++ join " AND " (whereExpressions st)
    else query in
  let query := query ++ " ORDER BY title" in
  (query, queryValues st).

Example findAll_all_criteria :
  findAll_query {| title := JStr "eng"; minSalary := JNum (Fin 200000 0);
                   hasEquity := JBool true; companyHandle := JStr "c1" |}
  = (findAll_select ++ " WHERE title ILIKE $1 AND salary >= $2 AND equity > 0"
       ++ " AND company_handle = $3 ORDER BY title",
     [JStr "%eng%"; JNum (Fin 200000 0); JStr "c1"]).
Proof. reflexivity. Qed.

(** ** The Job model over [db.query] *)

(** A statement as passed to [db.query(text, params)]. *)
Record stmt := mk_stmt { stmt_text : string; stmt_params : list jsval }.

Definition create_dup_sql : string :=
  "SELECT title 
       FROM jobs 
       WHERE title = $1 AND company_handle = $2".

Definition create_insert_sql : string :=
  "INSERT INTO jobs (title, salary, equity, company_handle)
       VALUES ($1, $2, $3, $4)
       RETURNING id, title, salary, equity, company_handle".

Definition get_sql : string :=
  "SELECT id, title, salary, equity, company_handle
       FROM jobs
       WHERE id = $1".

Definition update_sql (setCols jobIdIdx : string) : string :=
  "UPDATE jobs 
                      SET " ++ setCols ++ " 
                      WHERE id = " ++ jobIdIdx ++ " 
                      RETURNING id, title, salary, equity, company_handle".

Definition delete_sql : string :=
  "DELETE FROM jobs 
       WHERE id = $1 
       RETURNING id".

(** The mapping [Job.update] hands to [sqlForPartialUpdate]. *)
Definition job_jsToSql : obj :=
  [("title", JStr "title"); ("salary", JStr "salary"); ("equity", JStr "equity")].

Section Model.

Context {store : Type}.

(** [await db.query(text, params)]: the new store and the returned rows, or
    [None] when the store rejects the statement. *)
Variable query : store -> string -> list jsval -> option (store * list obj).

(** An async method: it reads and changes the store, may throw, and issues
    statements, recorded in order. *)
Definition M (A : Type) : Type := store -> (err + A) * store * list stmt.

Definition ret {A} (a : A) : M A := fun s => (inr a, s, []).

Definition throw {A} (e : err) : M A := fun s => (inl e, s, []).

Definition bind {A B} (m : M A) (k : A -> M B) : M B :=
  fun s =>
    match m s with
    | (inl e, s', log) => (inl e, s', log)
    | (inr a, s', log) => let '(r, s'', log') := k a s' in (r, s'', app log log')
    end.

Local Notation "x <- m ;; k" := (bind m (fun x => k))
  (at level 61, m at next level, right associativity).

Definition db_query (text : string) (params : list jsval) : M (list obj) :=
  fun s =>
    match query s text params with
    | Some (s', rows) => (inr rows, s', [mk_stmt text params])
    | None => (inl StoreError, s, [mk_stmt text params])
    end.

Definition duplicate_msg (title company_handle : jsval) : string :=
  "Duplicate job: " ++ js_to_string title ++ " already exists for company: "
    ++ js_to_string company_handle.

Definition not_found_msg (id : jsval) : string := "No job: " ++ js_to_string id.

(** [Job.create({ title, salary, equity, company_handle })] *)
Definition Job_create (data : obj) : M obj :=
  let title := obj_get data "title" in
  let salary := obj_get data "salary" in
  let equity := obj_get data "equity" in
  let company_handle := obj_get data "company_handle" in
  duplicateCheck <- db_query create_dup_sql [title; company_handle];;
  match duplicateCheck with
  | _ :: _ => throw (BadRequestError (duplicate_msg title company_handle))
  | [] =>
      result <- db_query create_insert_sql [title; salary; equity; company_handle];;
      match result with
      | job :: _ => ret (normalize_equity job)
      | [] => throw TypeError (* [job.equity] on [undefined] *)
      end
  end.

(** [Job.findAll({ title, minSalary, hasEquity, companyHandle } = {})] *)
Definition Job_findAll (f : job_filters) : M (list obj) :=
  let '(q, qv) := findAll_query f in
  jobsRes <- db_query q qv;;
  ret (map normalize_equity jobsRes).

(** [Job.get(id)] *)
Definition Job_get (id : jsval) : M obj :=
  jobRes <- db_query get_sql [id];;
  match jobRes with
  | [] => throw (NotFoundError (not_found_msg id))
  | job :: _ => ret (normalize_equity job)
  end.

(** [Job.update(id, data)] *)
Definition Job_update (id : jsval) (data : obj) : M obj :=
  match sqlForPartialUpdate data job_jsToSql with
  | inl e => throw e
  | inr p =>
      let jobIdIdx := "$" ++ nat_to_string (length (values p) + 1) in
      let querySql := update_sql (setCols p) jobIdIdx in
      result <- db_query querySql (values p ++ [id]);;
      match result with
      | [] => throw (NotFoundError (not_found_msg id))
      | job :: _ => ret (normalize_equity job)
      end
  end.

(** [Job.remove(id)] *)
Definition Job_remove (id : jsval) : M unit :=
  result <- db_query delete_sql [id];;
  match result with
  | [] => throw (NotFoundError (not_found_msg id))
  | _ :: _ => ret tt
  end.

(** ** The company listing filter *)

Record company_filters := {
  name : jsval;
  minEmployees : option Z;
  maxEmployees : option Z
}.

Definition company_where (f : company_filters) : where_state :=
  let st := {| whereExpressions := []; queryValues := [] |} in
  let st :=
    if truthy (name f) then
      let st := push_value st (JStr ("%" ++ js_to_string (name f) ++ "%")) in
      push_where st ("name ILIKE " ++ placeholder st)
    else st in
  let st :=
    match minEmployees f with
    | Some n =>
        let st := push_value st (JNum (Fin n 0)) in
        push_where st ("num_employees >= " ++ placeholder st)
    | None => st
    end in
  match maxEmployees f with
  | Some n =>
      let st := push_value st (JNum (Fin n 0)) in
      push_where st ("num_employees <= " ++ placeholder st)
  | None => st
  end.

Definition company_select : string :=
  "SELECT handle, name, description, num_employees, logo_url FROM companies".

(** Modelled from the spec: the company listing ([Company.findAll] and the
    [GET /companies] route are not among the sources; only their tests are).
    Section 4.3 and 6: when both [minEmployees] and [maxEmployees] are given
    and the minimum exceeds the maximum, the request is rejected with an
    InvalidInput error before the query is built; otherwise the filters
    become predicates (name substring, minimum, maximum) joined with AND and
    the result is ordered by name.  The message is the one the route test
    expects. *)
Definition Company_findAll (f : company_filters) : M (list obj) :=
  let validate : M unit :=
    match minEmployees f, maxEmployees f with
    | Some mn, Some mx =>
        if Z.ltb mx mn
        then throw (BadRequestError "minEmployees cannot be greater than maxEmployees.")
        else ret tt
    | _, _ => ret tt
    end in
  _ <- validate;;
  let st := company_where f in
  let q :=
    company_select
      ++ (if Nat.ltb 0 (length (whereExpressions st))
          then " WHERE " ++ join " AND " (whereExpressions st) else "")
      ++ " ORDER BY name" in
  companiesRes <- db_query q (queryValues st);;
  ret companiesRes.

End Model.

(** ** Reading of the claims: spec-side definitions *)

(** The criteria the claim about predicate counts calls present: those
    that are not [undefined]. *)
Definition count_present (f : job_filters) : nat :=
  length (filter (fun v => negb (strict_eq v JUndefined))
                 [title f; minSalary f; hasEquity f; companyHandle f]).

(** The criteria [Job.findAll] acts on: a truthy title, a defined
    minSalary, a hasEquity that is exactly [true], a truthy companyHandle. *)
Definition count_active (f : job_filters) : nat :=
  (if truthy (title f) then 1 else 0)
  + (if negb (strict_eq (minSalary f) JUndefined) then 1 else 0)
  + (if strict_eq (hasEquity f) (JBool true) then 1 else 0)
  + (if truthy (companyHandle f) then 1 else 0).

(** A filter criterion, in the vocabulary of the spec. *)
Inductive criterion :=
| CTitle (t : jsval)            (* case-insensitive substring of the title *)
| CMinSalary (v : jsval)        (* salary at least [v] *)
| CHasEquity                    (* equity above zero *)
| CCompanyHandle (h : jsval).   (* exact company *)

(** The acting criteria in the documented order: title, minimum salary,
    equity flag, company. *)
Definition criteria_in_order (f : job_filters) : list criterion :=
  (if truthy (title f) then [CTitle (title f)] else [])
  ++ (if negb (strict_eq (minSalary f) JUndefined) then [CMinSalary (minSalary f)] else [])
  ++ (if strict_eq (hasEquity f) (JBool true) then [CHasEquity] else [])
  ++ (if truthy (companyHandle f) then [CCompanyHandle (companyHandle f)] else []).

(** Predicates and parameters, numbering placeholders from [n] upwards;
    the equity flag binds no parameter. *)
Fixpoint render_criteria (n : nat) (cs : list criterion) : list string * list jsval :=
  match cs with
  | [] => ([], [])
  | CTitle t :: cs' =>
      let '(ps, vs) := render_criteria (S n) cs' in
      (("title ILIKE $" ++ nat_to_string n) :: ps,
       JStr ("%" ++ js_to_string t ++ "%") :: vs)
  | CMinSalary v :: cs' =>
      let '(ps, vs) := render_criteria (S n) cs' in
      (("salary >= $" ++ nat_to_string n) :: ps, v :: vs)
  | CHasEquity :: cs' =>
      let '(ps, vs) := render_criteria n cs' in
      ("equity > 0" :: ps, vs)
  | CCompanyHandle h :: cs' =>
      let '(ps, vs) := render_criteria (S n) cs' in
      (("company_handle = $" ++ nat_to_string n) :: ps, h :: vs)
  end.

(** The statement as the spec describes it: predicates joined with AND
    after WHERE when there are any, ordered by title ascending. *)
Definition findAll_spec (f : job_filters) : string * list jsval :=
  let '(ps, vs) := render_criteria 1 (criteria_in_order f) in
  (findAll_select
     ++ match ps with [] => "" | _ :: _ => " WHERE " ++ join " AND " ps end
     ++ " ORDER BY title",
   vs).

(** ** Lemmas *)

Lemma map_cols_length (m : obj) (idx : nat) (keys : list string) :
  length (map_cols m idx keys) = length keys.
Proof.
  revert idx; induction keys as [|k keys IH]; intros idx; simpl; [reflexivity|].
  now rewrite IH.
Qed.

Lemma map_cols_nth (m : obj) (keys : list string) :
  forall idx i,
    nth_error (map_cols m idx keys) i
    = option_map (fun k => set_col (resolve m k) (idx + i)) (nth_error keys i).
Proof.
  induction keys as [|k keys IH]; intros idx i; simpl.
  - now destruct i.
  - destruct i as [|i]; simpl.
    + now rewrite Nat.add_0_r.
    + rewrite IH. now replace (S idx + i) with (idx + S i) by lia.
Qed.

Lemma own_prop_obj_set (o : obj) (k : string) (v : jsval) :
  own_prop (obj_set o k v) k = Some v.
Proof.
  induction o as [|[k' v'] o IH]; simpl.
  - now rewrite String.eqb_refl.
  - destruct (String.eqb k k') eqn:E; simpl.
    + now rewrite E.
    + now rewrite E.
Qed.

Lemma obj_get_obj_set (o : obj) (k : string) (v : jsval) :
  obj_get (obj_set o k v) k = v.
Proof. unfold obj_get. now rewrite own_prop_obj_set. Qed.

(** What [normalize_equity] does to the equity of a row. *)
Lemma normalize_equity_equity (raw : obj) :
  (obj_get raw "equity" = JNull -> normalize_equity raw = raw)
  /\ (obj_get raw "equity" <> JNull ->
      obj_get (normalize_equity raw) "equity"
      = JNum (parseFloat (js_to_string (obj_get raw "equity")))).
Proof.
  unfold normalize_equity. split; intros H.
  - now rewrite H.
  - destruct (obj_get raw "equity") as [| |b|n|s|nm|] eqn:E;
      try (apply obj_get_obj_set);
      [ congruence | destruct n; apply obj_get_obj_set ].
Qed.

Lemma sqlForPartialUpdate_nonempty (dataToUpdate jsToSql : obj) :
  dataToUpdate <> [] -> exists p, sqlForPartialUpdate dataToUpdate jsToSql = inr p.
Proof.
  intros H. destruct dataToUpdate as [|kv d]; [congruence|]. eexists; reflexivity.
Qed.

(** An unmapped name that is no member of [Object.prototype] resolves to
    itself. *)
Lemma resolve_unmapped (m : obj) (k : string) :
  own_prop m k = None -> object_prototype_member k = JUndefined -> resolve m k = k.
Proof. intros H1 H2. unfold resolve, obj_get. now rewrite H1, H2. Qed.

(** A name mapped to a non-empty string resolves to that string. *)
Lemma resolve_mapped (m : obj) (k c : string) :
  own_prop m k = Some (JStr c) -> c <> "" -> resolve m k = c.
Proof.
  intros H1 H2. unfold resolve, obj_get. rewrite H1. simpl.
  destruct (String.eqb c "") eqn:E; [apply String.eqb_eq in E; congruence | reflexivity].
Qed.

(** ** The partial-update builder *)

(** C1: for a non-empty field map, [setCols] is the join with ", " of one
    entry per key, the entry of the i-th key (0-based) being
    ["<column>"=$(i+1)] with the column the mapper's resolution of that key,
    and [values] lists the map's values in the same order, so the value of
    the i-th key sits at position i and is bound to placeholder $(i+1). *)
Theorem sqlForPartialUpdate_layout (dataToUpdate jsToSql : obj) :
  dataToUpdate <> [] ->
  exists p cols,
    sqlForPartialUpdate dataToUpdate jsToSql = inr p
    /\ setCols p = join ", " cols
    /\ length cols = length (obj_keys dataToUpdate)
    /\ length (values p) = length (obj_keys dataToUpdate)
    /\ forall i k v,
         nth_error dataToUpdate i = Some (k, v) ->
         nth_error cols i
           = Some (dquote ++ resolve jsToSql k ++ dquote ++ "=$" ++ nat_to_string (S i))
         /\ nth_error (values p) i = Some v.
Proof.
  intros Hne.
  destruct dataToUpdate as [|kv d]; [congruence|].
  exists {| setCols := join ", " (map_cols jsToSql 0 (obj_keys (kv :: d)));
            values := obj_values (kv :: d) |}.
  exists (map_cols jsToSql 0 (obj_keys (kv :: d))).
  split; [reflexivity|].
  split; [reflexivity|].
  split; [apply map_cols_length|].
  split; [unfold obj_values, obj_keys; cbn [values]; now rewrite !length_map|].
  intros i k v Hi. split.
  - rewrite map_cols_nth. unfold obj_keys. rewrite nth_error_map, Hi. simpl.
    unfold set_col. now rewrite Nat.add_1_r.
  - cbn [values]. unfold obj_values. now rewrite nth_error_map, Hi.
Qed.

Lemma sqlForPartialUpdate_layout_witness :
  [("firstName", JStr "John"); ("age", JNum (Fin 30 0))] <> []
  /\ exists p cols,
    sqlForPartialUpdate [("firstName", JStr "John"); ("age", JNum (Fin 30 0))]
                        [("firstName", JStr "first_name")] = inr p
    /\ setCols p = join ", " cols
    /\ length cols = 2
    /\ length (values p) = 2
    /\ forall i k v,
         nth_error [("firstName", JStr "John"); ("age", JNum (Fin 30 0))] i = Some (k, v) ->
         nth_error cols i
           = Some (dquote ++ resolve [("firstName", JStr "first_name")] k ++ dquote
                     ++ "=$" ++ nat_to_string (S i))
         /\ nth_error (values p) i = Some v.
Proof.
  split; [discriminate|].
  apply (sqlForPartialUpdate_layout
           [("firstName", JStr "John"); ("age", JNum (Fin 30 0))]
           [("firstName", JStr "first_name")]).
  discriminate.
Defined.

(** C2: [sqlForPartialUpdate] throws exactly when the field map has no
    keys, and what it throws is [BadRequestError "No data"] (the spec's
    InvalidInput); on every other map it returns a result. *)
Theorem sqlForPartialUpdate_error_iff_empty (dataToUpdate jsToSql : obj) :
  (forall e, sqlForPartialUpdate dataToUpdate jsToSql = inl e -> e = BadRequestError "No data")
  /\ ((exists e, sqlForPartialUpdate dataToUpdate jsToSql = inl e) <-> dataToUpdate = [])
  /\ (dataToUpdate <> [] <-> exists p, sqlForPartialUpdate dataToUpdate jsToSql = inr p).
Proof.
  unfold sqlForPartialUpdate, obj_keys.
  destruct dataToUpdate as [|kv d]; simpl.
  - split; [intros e He; congruence|].
    split; [split; [reflexivity| intros _; eauto]|].
    split; [congruence| intros [p Hp]; discriminate].
  - split; [intros e He; discriminate|].
    split; [split; [intros [e He]; discriminate| discriminate]|].
    split; [intros _; eauto| intros _; discriminate].
Qed.

(** C5 (divergence): a key named like a member of [Object.prototype] is
    not an own property of the mapper, yet [jsToSql[colName]] finds the
    inherited function, which is truthy, so the column becomes the
    function's source text instead of the key. *)
Theorem sqlForPartialUpdate_inherited_key :
  sqlForPartialUpdate [("toString", JStr "x")] [("firstName", JStr "first_name")]
  = inr {| setCols := dquote ++ "function toString() { [native code] }" ++ dquote ++ "=$1";
           values := [JStr "x"] |}
  /\ own_prop [("firstName", JStr "first_name")] "toString" = None.
Proof. split; reflexivity. Qed.

(** ** Job.findAll: the statement *)

(** C3 (as stated, refuted): [hasEquity: false] is present (not
    undefined) but contributes no predicate. *)
Theorem findAll_present_count_fails :
  ~ (forall f, length (whereExpressions (findAll_where f)) = count_present f).
Proof.
  intros H.
  specialize (H {| title := JUndefined; minSalary := JUndefined;
                   hasEquity := JBool false; companyHandle := JUndefined |}).
  discriminate H.
Qed.

(** C3 (amended): the number of predicates equals the number of acting
    criteria (a truthy title, a minSalary other than undefined, a hasEquity
    that is exactly true, a truthy companyHandle); with no criteria the
    predicate list is empty, no parameter is bound and the statement has no
    WHERE clause. *)
Theorem findAll_predicate_count (f : job_filters) :
  length (whereExpressions (findAll_where f)) = count_active f
  /\ length (queryValues (findAll_where f))
     = count_active f - (if strict_eq (hasEquity f) (JBool true) then 1 else 0)
  /\ whereExpressions (findAll_where no_filters) = []
  /\ findAll_query no_filters = (findAll_select ++ " ORDER BY title", []).
Proof.
  unfold findAll_where, count_active, add_companyHandle, add_hasEquity,
    add_minSalary, add_title.
  destruct (truthy (title f)), (negb (strict_eq (minSalary f) JUndefined)),
    (strict_eq (hasEquity f) (JBool true)), (truthy (companyHandle f));
    repeat split; reflexivity.
Qed.

(** C4: [findAll] builds exactly the statement of the documented policy:
    acting criteria in the order title ([title ILIKE] with the pattern
    [%title%]), minSalary ([salary >=]), hasEquity ([equity > 0], no
    parameter), companyHandle ([company_handle =]); placeholders numbered
    from $1 in that order, each parameter at its placeholder's position;
    predicates joined with AND; [ORDER BY title] (ascending) in every case.
    (Whether ILIKE matches substrings is the store's semantics; the pattern
    does not escape [%] or [_] occurring in the title.) *)
Theorem findAll_query_refines (f : job_filters) :
  findAll_query f = findAll_spec f.
Proof.
  unfold findAll_query, findAll_spec, findAll_where, criteria_in_order,
    add_companyHandle, add_hasEquity, add_minSalary, add_title.
  destruct (truthy (title f)), (negb (strict_eq (minSalary f) JUndefined)),
    (strict_eq (hasEquity f) (JBool true)), (truthy (companyHandle f));
    reflexivity.
Qed.

(** C10: an empty title, an empty companyHandle, and a hasEquity other than
    [true] add neither predicate nor parameter: the statement and
    parameters are those of [findAll({})]. *)
Theorem findAll_ignored_criteria (v : jsval) :
  v <> JBool true ->
  findAll_query {| title := JStr ""; minSalary := JUndefined;
                   hasEquity := JUndefined; companyHandle := JUndefined |}
    = findAll_query no_filters
  /\ findAll_query {| title := JUndefined; minSalary := JUndefined;
                      hasEquity := JUndefined; companyHandle := JStr "" |}
    = findAll_query no_filters
  /\ findAll_query {| title := JUndefined; minSalary := JUndefined;
                      hasEquity := v; companyHandle := JUndefined |}
    = findAll_query no_filters.
Proof.
  intros Hv. split; [reflexivity|]. split; [reflexivity|].
  unfold findAll_query, findAll_where, add_companyHandle, add_hasEquity,
    add_minSalary, add_title. simpl.
  replace (strict_eq v (JBool true)) with false; [reflexivity|].
  unfold strict_eq.
  destruct v as [| |b|n|s|nm|]; try reflexivity;
    try (destruct (jsval_eq_dec _ _); congruence).
  destruct n; try reflexivity; destruct (jsval_eq_dec _ _); congruence.
Qed.

Lemma findAll_ignored_criteria_witness :
  JBool false <> JBool true
  /\ findAll_query {| title := JStr ""; minSalary := JUndefined;
                      hasEquity := JUndefined; companyHandle := JUndefined |}
       = findAll_query no_filters
  /\ findAll_query {| title := JUndefined; minSalary := JUndefined;
                      hasEquity := JUndefined; companyHandle := JStr "" |}
       = findAll_query no_filters
  /\ findAll_query {| title := JUndefined; minSalary := JUndefined;
                      hasEquity := JBool false; companyHandle := JUndefined |}
       = findAll_query no_filters.
Proof.
  split; [discriminate|].
  apply (findAll_ignored_criteria (JBool false)). discriminate.
Defined.

(** ** The Job methods, statement by statement *)

Section Unfold.

Context {store : Type}.
Variable query : store -> string -> list jsval -> option (store * list obj).

Lemma Job_create_steps (data : obj) (s : store) :
  let t := obj_get data "title" in
  let h := obj_get data "company_handle" in
  let d := mk_stmt create_dup_sql [t; h] in
  let ins := [t; obj_get data "salary"; obj_get data "equity"; h] in
  let i := mk_stmt create_insert_sql ins in
  Job_create query data s =
    match query s create_dup_sql [t; h] with
    | None => (inl StoreError, s, [d])
    | Some (s1, _ :: _) => (inl (BadRequestError (duplicate_msg t h)), s1, [d])
    | Some (s1, []) =>
        match query s1 create_insert_sql ins with
        | None => (inl StoreError, s1, [d; i])
        | Some (s2, []) => (inl TypeError, s2, [d; i])
        | Some (s2, job :: _) => (inr (normalize_equity job), s2, [d; i])
        end
    end.
Proof.
  cbv zeta. unfold Job_create, bind, db_query, ret, throw.
  destruct (query s _ _) as [[s1 [|r1 rows1]]|]; [|reflexivity|reflexivity].
  destruct (query s1 _ _) as [[s2 [|r2 rows2]]|]; reflexivity.
Qed.

Lemma Job_findAll_steps (f : job_filters) (s : store) :
  Job_findAll query f s =
    match query s (fst (findAll_query f)) (snd (findAll_query f)) with
    | None => (inl StoreError, s, [mk_stmt (fst (findAll_query f)) (snd (findAll_query f))])
    | Some (s1, rows) =>
        (inr (map normalize_equity rows), s1,
         [mk_stmt (fst (findAll_query f)) (snd (findAll_query f))])
    end.
Proof.
  unfold Job_findAll, bind, db_query, ret.
  destruct (findAll_query f) as [q qv]. simpl.
  destruct (query s q qv) as [[s1 rows]|]; reflexivity.
Qed.

Lemma Job_get_steps (id : jsval) (s : store) :
  Job_get query id s =
    match query s get_sql [id] with
    | None => (inl StoreError, s, [mk_stmt get_sql [id]])
    | Some (s1, []) => (inl (NotFoundError (not_found_msg id)), s1, [mk_stmt get_sql [id]])
    | Some (s1, job :: _) => (inr (normalize_equity job), s1, [mk_stmt get_sql [id]])
    end.
Proof.
  unfold Job_get, bind, db_query, ret, throw.
  destruct (query s _ _) as [[s1 [|r rows]]|]; reflexivity.
Qed.

(** The statement [Job.update] issues for a builder result [p]. *)
Definition update_stmt (p : partial_update) (id : jsval) : stmt :=
  mk_stmt (update_sql (setCols p) ("$" ++ nat_to_string (length (values p) + 1)))
          (values p ++ [id]).

Lemma Job_update_steps (id : jsval) (data : obj) (s : store) :
  Job_update query id data s =
    match sqlForPartialUpdate data job_jsToSql with
    | inl e => (inl e, s, [])
    | inr p =>
        let st := update_stmt p id in
        match query s (stmt_text st) (stmt_params st) with
        | None => (inl StoreError, s, [st])
        | Some (s1, []) => (inl (NotFoundError (not_found_msg id)), s1, [st])
        | Some (s1, job :: _) => (inr (normalize_equity job), s1, [st])
        end
    end.
Proof.
  unfold Job_update, bind, db_query, ret, throw, update_stmt.
  destruct (sqlForPartialUpdate data job_jsToSql) as [e|p]; [reflexivity|].
  simpl. destruct (query s _ _) as [[s1 [|r rows]]|]; reflexivity.
Qed.

Lemma Job_remove_steps (id : jsval) (s : store) :
  Job_remove query id s =
    match query s delete_sql [id] with
    | None => (inl StoreError, s, [mk_stmt delete_sql [id]])
    | Some (s1, []) => (inl (NotFoundError (not_found_msg id)), s1, [mk_stmt delete_sql [id]])
    | Some (s1, _ :: _) => (inr tt, s1, [mk_stmt delete_sql [id]])
    end.
Proof.
  unfold Job_remove, bind, db_query, ret, throw.
  destruct (query s _ _) as [[s1 [|r rows]]|]; reflexivity.
Qed.

End Unfold.

(** ** What the store is assumed to do with these statements *)

(** A row of the [jobs] table. *)
Record job_row := {
  jr_id : Z;
  jr_title : string;
  jr_salary : jsval;
  jr_equity : jsval;
  jr_handle : string
}.

Definition jsint (z : Z) : jsval := JNum (Fin z 0).

(** White space PostgreSQL skips around an [integer] literal. *)
Definition pg_space (c : ascii) : bool :=
  let n := nat_of_ascii c in Nat.eqb n 32 || (Nat.leb 9 n && Nat.leb n 13).

Fixpoint pg_skip_space (s : string) : string :=
  match s with
  | String c s' => if pg_space c then pg_skip_space s' else s
  | EmptyString => EmptyString
  end.

(** The text of an [integer] value: white space, a sign, decimal digits,
    white space, within the 32-bit range; [None] when the cast fails. *)
Definition pg_int_text (str : string) : option Z :=
  let s := pg_skip_space str in
  let '(neg, r) :=
    match s with
    | String c r =>
        if Ascii.eqb c "-"%char then (true, r)
        else if Ascii.eqb c "+"%char then (false, r) else (false, s)
    | EmptyString => (false, s)
    end in
  let '(v, cnt, rest) := read_digits r 0%Z O in
  if Nat.eqb cnt 0 then None
  else if negb (String.eqb (pg_skip_space rest) "") then None
  else
    let z := if neg then (- v)%Z else v in
    if (-2147483648 <=? z)%Z && (z <=? 2147483647)%Z then Some z else None.

(** How the store reads a value bound to the integer column [id]:
    node-postgres sends a number as its [String] text and a string as it
    is (the routes pass [req.params.id], a string); any other value is
    taken as not castable. *)
Definition pg_int (v : jsval) : option Z :=
  match v with
  | JNum n => pg_int_text (num_to_string n)
  | JStr s => pg_int_text s
  | _ => None
  end.

Definition job_exists (rows : list job_row) (id : Z) : bool :=
  existsb (fun r => Z.eqb (jr_id r) id) rows.

Definition title_handle_match (t h : string) (r : job_row) : bool :=
  String.eqb (jr_title r) t && String.eqb (jr_handle r) h.

Definition has_title_handle (rows : list job_row) (t h : string) : bool :=
  existsb (title_handle_match t h) rows.

(** The body [Job.create] receives. *)
Definition job_data (t : string) (salary equity : jsval) (h : string) : obj :=
  [("title", JStr t); ("salary", salary); ("equity", equity); ("company_handle", JStr h)].

(** The payload fields the update schema admits. *)
Definition job_update_fields : list string := ["title"; "salary"; "equity"].

(** A non-null stored equity surfaces as [parseFloat] of its text. *)
Definition equity_surfaced (raw r : obj) : Prop :=
  r = normalize_equity raw
  /\ (obj_get raw "equity" = JNull -> obj_get r "equity" = JNull)
  /\ (obj_get raw "equity" <> JNull ->
      obj_get r "equity" = JNum (parseFloat (js_to_string (obj_get raw "equity")))).

Lemma equity_surfaced_normalize (raw : obj) : equity_surfaced raw (normalize_equity raw).
Proof.
  destruct (normalize_equity_equity raw) as [H1 H2].
  split; [reflexivity|]. split; [|exact H2].
  intros H. now rewrite (H1 H).
Qed.

Section StoreSemantics.

Context {store : Type}.
Variable query : store -> string -> list jsval -> option (store * list obj).
(** The contents of the [jobs] table in a store. *)
Variable job_rows : store -> list job_row.

(** The duplicate check reads without writing and returns a row exactly
    when a job with that title and company is stored. *)
Definition dup_check_sound : Prop :=
  forall s t h, exists rows,
    query s create_dup_sql [JStr t; JStr h] = Some (s, rows)
    /\ (rows = [] <-> has_title_handle (job_rows s) t h = false).

(** An accepted insert stores a job with the given title and company. *)
Definition insert_stores : Prop :=
  forall s t salary equity h s' rows,
    query s create_insert_sql [JStr t; salary; equity; JStr h] = Some (s', rows) ->
    has_title_handle (job_rows s') t h = true.

(** A read by a bound id [v] that the store casts to the integer [id]
    leaves the store as it is and returns a row exactly when [id] is stored. *)
Definition get_by_id_sound : Prop :=
  forall s v id, pg_int v = Some id -> exists rows,
    query s get_sql [v] = Some (s, rows)
    /\ (rows = [] <-> job_exists (job_rows s) id = false).

(** An update of admitted fields is executed and returns a row exactly when
    the id is stored. *)
Definition update_by_id_sound : Prop :=
  forall s data p v id,
    pg_int v = Some id ->
    Forall (fun k => In k job_update_fields) (obj_keys data) ->
    sqlForPartialUpdate data job_jsToSql = inr p ->
    exists s' rows,
      query s (stmt_text (update_stmt p v)) (stmt_params (update_stmt p v))
        = Some (s', rows)
      /\ (rows = [] <-> job_exists (job_rows s) id = false).

Definition delete_by_id_sound : Prop :=
  forall s v id, pg_int v = Some id -> exists s' rows,
    query s delete_sql [v] = Some (s', rows)
    /\ (rows = [] <-> job_exists (job_rows s) id = false)
    /\ job_exists (job_rows s') id = false.

Lemma Job_create_job_data (t h : string) (salary equity : jsval) (s : store) :
  Job_create query (job_data t salary equity h) s =
    match query s create_dup_sql [JStr t; JStr h] with
    | None => (inl StoreError, s, [mk_stmt create_dup_sql [JStr t; JStr h]])
    | Some (s1, _ :: _) =>
        (inl (BadRequestError (duplicate_msg (JStr t) (JStr h))), s1,
         [mk_stmt create_dup_sql [JStr t; JStr h]])
    | Some (s1, []) =>
        match query s1 create_insert_sql [JStr t; salary; equity; JStr h] with
        | None => (inl StoreError, s1,
                   [mk_stmt create_dup_sql [JStr t; JStr h];
                    mk_stmt create_insert_sql [JStr t; salary; equity; JStr h]])
        | Some (s2, []) => (inl TypeError, s2,
                   [mk_stmt create_dup_sql [JStr t; JStr h];
                    mk_stmt create_insert_sql [JStr t; salary; equity; JStr h]])
        | Some (s2, job :: _) => (inr (normalize_equity job), s2,
                   [mk_stmt create_dup_sql [JStr t; JStr h];
                    mk_stmt create_insert_sql [JStr t; salary; equity; JStr h]])
        end
    end.
Proof. exact (Job_create_steps query (job_data t salary equity h) s). Qed.

Lemma Job_create_stored_duplicate (Hdup : dup_check_sound) (t h : string)
      (salary equity : jsval) (s : store) :
  has_title_handle (job_rows s) t h = true ->
  Job_create query (job_data t salary equity h) s
  = (inl (BadRequestError (duplicate_msg (JStr t) (JStr h))), s,
     [mk_stmt create_dup_sql [JStr t; JStr h]]).
Proof.
  intros Hhas. rewrite Job_create_job_data.
  destruct (Hdup s t h) as [rows [Hq Hr]]. rewrite Hq.
  destruct rows as [|r rows]; [|reflexivity].
  assert (has_title_handle (job_rows s) t h = false) by (apply Hr; reflexivity).
  congruence.
Qed.

(** C6: a create whose title and company are already stored throws the
    duplicate error ([BadRequestError "Duplicate job: ..."], the spec's
    DuplicateResource) after the duplicate check alone, with no insert;
    otherwise the insert is issued after the check and its returned row is
    the result; and once a create has succeeded, the same create throws the
    duplicate error. *)
Theorem Job_create_duplicate (Hdup : dup_check_sound) (Hins : insert_stores)
        (t h : string) (salary equity : jsval) (s : store) :
  (has_title_handle (job_rows s) t h = true ->
   Job_create query (job_data t salary equity h) s
   = (inl (BadRequestError (duplicate_msg (JStr t) (JStr h))), s,
      [mk_stmt create_dup_sql [JStr t; JStr h]]))
  /\ (has_title_handle (job_rows s) t h = false ->
      Job_create query (job_data t salary equity h) s
      = match query s create_insert_sql [JStr t; salary; equity; JStr h] with
        | None => (inl StoreError, s,
                   [mk_stmt create_dup_sql [JStr t; JStr h];
                    mk_stmt create_insert_sql [JStr t; salary; equity; JStr h]])
        | Some (s2, []) => (inl TypeError, s2,
                   [mk_stmt create_dup_sql [JStr t; JStr h];
                    mk_stmt create_insert_sql [JStr t; salary; equity; JStr h]])
        | Some (s2, job :: _) => (inr (normalize_equity job), s2,
                   [mk_stmt create_dup_sql [JStr t; JStr h];
                    mk_stmt create_insert_sql [JStr t; salary; equity; JStr h]])
        end)
  /\ (forall r s' log,
        Job_create query (job_data t salary equity h) s = (inr r, s', log) ->
        fst (fst (Job_create query (job_data t salary equity h) s'))
        = inl (BadRequestError (duplicate_msg (JStr t) (JStr h)))).
Proof.
  split; [apply Job_create_stored_duplicate; exact Hdup|].
  split.
  - intros Hnone. rewrite Job_create_job_data.
    destruct (Hdup s t h) as [rows [Hq Hr]]. rewrite Hq.
    assert (rows = []) as -> by (apply Hr; exact Hnone). reflexivity.
  - intros r s' log Hc.
    rewrite Job_create_job_data in Hc.
    destruct (Hdup s t h) as [rows [Hq _]]. rewrite Hq in Hc.
    destruct rows as [|r0 rows]; [|discriminate].
    destruct (query s create_insert_sql [JStr t; salary; equity; JStr h])
      as [[s2 [|job rows2]]|] eqn:Hi; try discriminate.
    inversion Hc; subst.
    rewrite (Job_create_stored_duplicate Hdup); [reflexivity|].
    exact (Hins _ _ _ _ _ _ _ Hi).
Qed.

(** C7 (as amended): for every id value [v] the store reads as an integer
    job id (a number, or its decimal text as the routes pass
    [req.params.id]) and every payload of job fields, [get], [update] (with
    a non-empty payload) and [remove] throw [NotFoundError] exactly when no
    job has that id, which they detect by the statement returning no row.
    When the job exists, [get] returns the row read, [update] issues the
    builder's SET clause with the id as the last parameter, bound to
    placeholder $(n+1) after the n payload values, and returns the row the
    statement returns, and [remove] deletes the row and returns nothing.
    With an empty payload, [update] throws the builder's
    [BadRequestError "No data"] and issues no statement, for every id and
    store, whether or not the job exists. *)
Theorem Job_by_id_not_found (Hget : get_by_id_sound) (Hupd : update_by_id_sound)
        (Hdel : delete_by_id_sound) (s : store) (v : jsval) (id : Z) (data : obj)
        (Hid : pg_int v = Some id)
        (Hkeys : Forall (fun k => In k job_update_fields) (obj_keys data)) :
  (job_exists (job_rows s) id = false ->
   Job_get query v s
   = (inl (NotFoundError (not_found_msg v)), s, [mk_stmt get_sql [v]]))
  /\ (job_exists (job_rows s) id = true ->
      exists row rows,
        query s get_sql [v] = Some (s, row :: rows)
        /\ Job_get query v s = (inr (normalize_equity row), s, [mk_stmt get_sql [v]]))
  /\ (data <> [] ->
      exists p,
        sqlForPartialUpdate data job_jsToSql = inr p
        /\ update_stmt p v
           = mk_stmt (update_sql (setCols p) ("$" ++ nat_to_string (length (values p) + 1)))
                     (values p ++ [v])
        /\ (job_exists (job_rows s) id = false ->
            exists s', Job_update query v data s
                       = (inl (NotFoundError (not_found_msg v)), s', [update_stmt p v]))
        /\ (job_exists (job_rows s) id = true ->
            exists s' row rows,
              query s (stmt_text (update_stmt p v)) (stmt_params (update_stmt p v))
                = Some (s', row :: rows)
              /\ Job_update query v data s = (inr (normalize_equity row), s', [update_stmt p v])))
  /\ (forall (v' : jsval) (s' : store),
        Job_update query v' [] s' = (inl (BadRequestError "No data"), s', []))
  /\ (job_exists (job_rows s) id = false ->
      exists s', Job_remove query v s
                 = (inl (NotFoundError (not_found_msg v)), s', [mk_stmt delete_sql [v]]))
  /\ (job_exists (job_rows s) id = true ->
      exists s', Job_remove query v s = (inr tt, s', [mk_stmt delete_sql [v]])
                 /\ job_exists (job_rows s') id = false).
Proof.
  destruct (Hget s v id Hid) as [grows [Hgq Hgr]].
  destruct (Hdel s v id Hid) as [ds [drows [Hdq [Hdr Hgone]]]].
  split; [|split; [|split; [|split; [|split]]]].
  - intros Hno. rewrite Job_get_steps, Hgq.
    now rewrite (proj2 Hgr Hno).
  - intros Hyes. destruct grows as [|row rows].
    + rewrite (proj1 Hgr eq_refl) in Hyes. discriminate.
    + exists row, rows. split; [exact Hgq|]. now rewrite Job_get_steps, Hgq.
  - intros Hne.
    destruct (sqlForPartialUpdate_nonempty data job_jsToSql Hne) as [p Hp].
    destruct (Hupd s data p v id Hid Hkeys Hp) as [us [urows [Huq Hur]]].
    exists p. split; [exact Hp|]. split; [reflexivity|]. split.
    + intros Hno. exists us. rewrite Job_update_steps, Hp. cbv zeta. rewrite Huq.
      now rewrite (proj2 Hur Hno).
    + intros Hyes. destruct urows as [|row rows].
      * rewrite (proj1 Hur eq_refl) in Hyes. discriminate.
      * exists us, row, rows. split; [exact Huq|].
        rewrite Job_update_steps, Hp. cbv zeta. now rewrite Huq.
  - intros v' s'. reflexivity.
  - intros Hno. exists ds. rewrite Job_remove_steps, Hdq.
    now rewrite (proj2 Hdr Hno).
  - intros Hyes. exists ds. split; [|exact Hgone].
    rewrite Job_remove_steps, Hdq. destruct drows as [|r rows]; [|reflexivity].
    rewrite (proj1 Hdr eq_refl) in Hyes. discriminate.
Qed.

(** C8: on every read path ([create], [findAll], [get], [update]) each
    returned record is a row the store returned with [normalize_equity]
    applied: a null equity stays null, any other stored equity (the
    decimal text of a NUMERIC) is replaced by the number [parseFloat]
    reads from it. *)
Theorem Job_reads_normalize_equity :
  (forall data s r s' log,
     Job_create query data s = (inr r, s', log) ->
     exists s1 s2 raw rows,
       query s create_dup_sql [obj_get data "title"; obj_get data "company_handle"]
         = Some (s1, [])
       /\ query s1 create_insert_sql
            [obj_get data "title"; obj_get data "salary"; obj_get data "equity";
             obj_get data "company_handle"] = Some (s2, raw :: rows)
       /\ equity_surfaced raw r)
  /\ (forall f s rs s' log,
        Job_findAll query f s = (inr rs, s', log) ->
        exists raws,
          query s (fst (findAll_query f)) (snd (findAll_query f)) = Some (s', raws)
          /\ Forall2 equity_surfaced raws rs)
  /\ (forall id s r s' log,
        Job_get query id s = (inr r, s', log) ->
        exists raw rows, query s get_sql [id] = Some (s', raw :: rows) /\ equity_surfaced raw r)
  /\ (forall id data s r s' log,
        Job_update query id data s = (inr r, s', log) ->
        exists p raw rows,
          sqlForPartialUpdate data job_jsToSql = inr p
          /\ query s (stmt_text (update_stmt p id)) (stmt_params (update_stmt p id))
             = Some (s', raw :: rows)
          /\ equity_surfaced raw r).
Proof.
  split; [|split; [|split]].
  - intros data s r s' log H. rewrite Job_create_steps in H. cbv zeta in H.
    destruct (query s create_dup_sql _) as [[s1 [|x xs]]|] eqn:E1; try discriminate.
    destruct (query s1 create_insert_sql _) as [[s2 [|raw rows]]|] eqn:E2; try discriminate.
    inversion H; subst. exists s1, s', raw, rows.
    split; [first [exact E1 | reflexivity]|]. split; [first [exact E2 | reflexivity]|]. apply equity_surfaced_normalize.
  - intros f s rs s' log H. rewrite Job_findAll_steps in H.
    destruct (query s _ _) as [[s1 raws]|] eqn:E; try discriminate.
    inversion H; subst. exists raws. split; [reflexivity|].
    clear H E. induction raws as [|raw raws IH]; constructor;
      [apply equity_surfaced_normalize | exact IH].
  - intros id s r s' log H. rewrite Job_get_steps in H.
    destruct (query s _ _) as [[s1 [|raw rows]]|] eqn:E; try discriminate.
    inversion H; subst. exists raw, rows. split; [first [exact E | reflexivity]|]. apply equity_surfaced_normalize.
  - intros id data s r s' log H. rewrite Job_update_steps in H.
    destruct (sqlForPartialUpdate data job_jsToSql) as [e|p] eqn:Ep; [discriminate|].
    cbv zeta in H.
    destruct (query s _ _) as [[s1 [|raw rows]]|] eqn:E; try discriminate.
    inversion H; subst. exists p, raw, rows.
    split; [reflexivity|]. split; [first [exact E | reflexivity]|]. apply equity_surfaced_normalize.
Qed.

(** C9 (spec-modelled): a company listing whose minEmployees exceeds its
    maxEmployees throws the InvalidInput error before any statement is
    built or issued: the store is untouched and nothing is sent to it. *)
Theorem Company_findAll_rejects_inverted_range (f : company_filters) (mn mx : Z)
        (s : store) :
  minEmployees f = Some mn -> maxEmployees f = Some mx -> (mx < mn)%Z ->
  Company_findAll query f s
  = (inl (BadRequestError "minEmployees cannot be greater than maxEmployees."), s, []).
Proof.
  intros Hmn Hmx Hlt. unfold Company_findAll, bind, throw.
  rewrite Hmn, Hmx. apply Z.ltb_lt in Hlt. rewrite Hlt. reflexivity.
Qed.

End StoreSemantics.

(** ** An in-memory store

    A [jobs] table with an id counter, answering the statements of the Job
    model as PostgreSQL would select their rows.  The SET clause of an
    update is left unapplied: only which rows an update returns matters
    here. *)

Record mem_store := { mem_jobs : list job_row; mem_next : Z }.

Definition row_obj (r : job_row) : obj :=
  [("id", jsint (jr_id r)); ("title", JStr (jr_title r)); ("salary", jr_salary r);
   ("equity", jr_equity r); ("company_handle", JStr (jr_handle r))].

(** What a NUMERIC column hands back for a bound parameter: its decimal text. *)
Definition numeric_text (v : jsval) : jsval :=
  match v with
  | JNum n => JStr (num_to_string n)
  | JStr s => JStr s
  | _ => JNull
  end.

Definition id_is (id : Z) (r : job_row) : bool := Z.eqb (jr_id r) id.

Definition mem_query (s : mem_store) (text : string) (params : list jsval)
  : option (mem_store * list obj) :=
  if String.prefix "UPDATE jobs" text then
    match pg_int (last params JUndefined) with
    | Some id => Some (s, map row_obj (filter (id_is id) (mem_jobs s)))
    | None => None
    end
  else if String.eqb text create_dup_sql then
    match params with
    | [JStr t; JStr h] =>
        Some (s, map (fun r => [("title", JStr (jr_title r))])
                     (filter (title_handle_match t h) (mem_jobs s)))
    | _ => None
    end
  else if String.eqb text create_insert_sql then
    match params with
    | [JStr t; salary; equity; JStr h] =>
        let r := {| jr_id := mem_next s; jr_title := t; jr_salary := salary;
                    jr_equity := numeric_text equity; jr_handle := h |} in
        Some ({| mem_jobs := mem_jobs s ++ [r]; mem_next := (mem_next s + 1)%Z |},
              [row_obj r])
    | _ => None
    end
  else if String.eqb text get_sql then
    match params with
    | [v] =>
        match pg_int v with
        | Some id => Some (s, map row_obj (filter (id_is id) (mem_jobs s)))
        | None => None
        end
    | _ => None
    end
  else if String.eqb text delete_sql then
    match params with
    | [v] =>
        match pg_int v with
        | Some id =>
            Some ({| mem_jobs := filter (fun r => negb (id_is id r)) (mem_jobs s);
                     mem_next := mem_next s |},
                  map (fun r => [("id", jsint (jr_id r))]) (filter (id_is id) (mem_jobs s)))
        | None => None
        end
    | _ => None
    end
  else None.

Definition mem_empty : mem_store := {| mem_jobs := []; mem_next := 1%Z |}.

Lemma filter_nil_existsb {A} (f : A -> bool) (l : list A) :
  filter f l = [] <-> existsb f l = false.
Proof.
  induction l as [|x l IH]; simpl; [tauto|].
  destruct (f x); simpl; [split; discriminate|exact IH].
Qed.

Lemma map_nil_iff {A B} (f : A -> B) (l : list A) : map f l = [] <-> l = [].
Proof. destruct l; simpl; split; congruence. Qed.

Lemma existsb_filter_negb {A} (f : A -> bool) (l : list A) :
  existsb f (filter (fun x => negb (f x)) l) = false.
Proof.
  induction l as [|x l IH]; simpl; [reflexivity|].
  destruct (f x) eqn:E; simpl; [exact IH|]. rewrite E. exact IH.
Qed.

Lemma mem_dup_check_sound : dup_check_sound mem_query mem_jobs.
Proof.
  intros s t h. eexists. split; [reflexivity|].
  unfold has_title_handle. rewrite map_nil_iff. apply filter_nil_existsb.
Qed.

Lemma mem_insert_stores : insert_stores mem_query mem_jobs.
Proof.
  intros s t salary equity h s' rows H.
  unfold mem_query in H. simpl in H. inversion H; subst. simpl.
  unfold has_title_handle. rewrite existsb_app. simpl.
  unfold title_handle_match. simpl. rewrite !String.eqb_refl. apply orb_true_r.
Qed.

Lemma mem_get_by_id_sound : get_by_id_sound mem_query mem_jobs.
Proof.
  intros s v id Hv. eexists. split.
  - unfold mem_query. cbn -[pg_int]. rewrite Hv. reflexivity.
  - rewrite map_nil_iff. apply filter_nil_existsb.
Qed.

Lemma mem_update_by_id_sound : update_by_id_sound mem_query mem_jobs.
Proof.
  intros s data p v id Hv _ _. exists s. eexists. split.
  - unfold mem_query, update_stmt. cbn -[pg_int last]. rewrite last_last, Hv. reflexivity.
  - rewrite map_nil_iff. apply filter_nil_existsb.
Qed.

Lemma mem_delete_by_id_sound : delete_by_id_sound mem_query mem_jobs.
Proof.
  intros s v id Hv. do 2 eexists. split.
  - unfold mem_query. cbn -[pg_int]. rewrite Hv. reflexivity.
  - split.
    + rewrite map_nil_iff. apply filter_nil_existsb.
    + apply existsb_filter_negb.
Qed.

(** A store holding one job, with id 1. *)
Definition mem_one : mem_store :=
  {| mem_jobs := [{| jr_id := 1; jr_title := "J1"; jr_salary := jsint 100000;
                     jr_equity := JStr "0.1"; jr_handle := "c1" |}];
     mem_next := 2 |}.

(** The spec's example: creating "New Job" at "c1" twice. *)
Example create_twice :
  let data := job_data "New Job" (jsint 100000) (JNum (Fin 1 1)) "c1" in
  let '(r1, s1, _) := Job_create mem_query data mem_empty in
  r1 = inr [("id", jsint 1); ("title", JStr "New Job"); ("salary", jsint 100000);
            ("equity", JNum (Fin 1 1)); ("company_handle", JStr "c1")]
  /\ fst (fst (Job_create mem_query data s1))
     = inl (BadRequestError "Duplicate job: New Job already exists for company: c1").
Proof. vm_compute. split; reflexivity. Qed.

(** ** Instances on the in-memory store *)

Lemma Job_create_duplicate_witness :
  dup_check_sound mem_query mem_jobs /\ insert_stores mem_query mem_jobs
  /\ forall r s' log,
       Job_create mem_query (job_data "New Job" (jsint 100000) (JNum (Fin 1 1)) "c1")
                  mem_empty = (inr r, s', log) ->
       fst (fst (Job_create mem_query
                   (job_data "New Job" (jsint 100000) (JNum (Fin 1 1)) "c1") s'))
       = inl (BadRequestError (duplicate_msg (JStr "New Job") (JStr "c1"))).
Proof.
  split; [exact mem_dup_check_sound|]. split; [exact mem_insert_stores|].
  exact (proj2 (proj2 (Job_create_duplicate mem_query mem_jobs mem_dup_check_sound
                          mem_insert_stores "New Job" "c1" (jsint 100000)
                          (JNum (Fin 1 1)) mem_empty))).
Defined.

Lemma Job_by_id_not_found_witness :
  get_by_id_sound mem_query mem_jobs /\ update_by_id_sound mem_query mem_jobs
  /\ delete_by_id_sound mem_query mem_jobs
  /\ pg_int (JStr "1") = Some 1%Z
  /\ Forall (fun k => In k job_update_fields) (obj_keys [("title", JStr "J2")])
  /\ (job_exists (mem_jobs mem_one) 1 = true ->
      exists row rows,
        mem_query mem_one get_sql [JStr "1"] = Some (mem_one, row :: rows)
        /\ Job_get mem_query (JStr "1") mem_one
           = (inr (normalize_equity row), mem_one, [mk_stmt get_sql [JStr "1"]])).
Proof.
  split; [exact mem_get_by_id_sound|].
  split; [exact mem_update_by_id_sound|].
  split; [exact mem_delete_by_id_sound|].
  split; [vm_compute; reflexivity|].
  split; [repeat constructor; simpl; tauto|].
  refine (proj1 (proj2 (Job_by_id_not_found mem_query mem_jobs mem_get_by_id_sound
                          mem_update_by_id_sound mem_delete_by_id_sound mem_one
                          (JStr "1") 1 [("title", JStr "J2")] _ _))).
  - vm_compute. reflexivity.
  - repeat constructor; simpl; tauto.
Defined.

(** C7 (as stated, refuted): with an empty payload, [update] throws the
    builder's [BadRequestError "No data"], not [NotFoundError], when the id
    is not stored, and does not update and return the row when it is; in
    both cases no statement is issued. *)
Lemma Job_update_empty_payload_no_row :
  job_exists (mem_jobs mem_empty) 0 = false
  /\ Job_update mem_query (jsint 0) [] mem_empty
     = (inl (BadRequestError "No data"), mem_empty, [])
  /\ job_exists (mem_jobs mem_one) 1 = true
  /\ Job_update mem_query (JStr "1") [] mem_one
     = (inl (BadRequestError "No data"), mem_one, []).
Proof. repeat split. Qed.

Lemma Company_findAll_rejects_inverted_range_witness :
  Some 100%Z = Some 100%Z /\ Some 50%Z = Some 50%Z /\ (50 < 100)%Z
  /\ Company_findAll mem_query
       {| name := JUndefined; minEmployees := Some 100%Z; maxEmployees := Some 50%Z |}
       mem_empty
     = (inl (BadRequestError "minEmployees cannot be greater than maxEmployees."),
        mem_empty, []).
Proof.
  split; [reflexivity|]. split; [reflexivity|]. split; [lia|].
  apply (Company_findAll_rejects_inverted_range mem_query
           {| name := JUndefined; minEmployees := Some 100%Z; maxEmployees := Some 50%Z |}
           100 50 mem_empty); [reflexivity | reflexivity | lia].
Defined.

(** ** middleware/auth.js *)

(** A token payload as [jwt.verify] returns it: an object or a string. *)
Inductive payload :=
| PObj (o : obj)
| PStr (s : string).

(** Truthiness of [res.locals.user]; [None] is [undefined]. *)
Definition user_truthy (user : option payload) : bool :=
  match user with
  | None => false
  | Some (PObj _) => true
  | Some (PStr s) => negb (String.eqb s "")
  end.

(** [user.isAdmin] and [user.username]: a string payload has neither. *)
Definition user_isAdmin (p : payload) : jsval :=
  match p with PObj o => obj_get o "isAdmin" | PStr _ => JUndefined end.

Definition user_username (p : payload) : jsval :=
  match p with PObj o => obj_get o "username" | PStr _ => JUndefined end.

(** What a route or middleware hands to [next]. *)
Inductive route_err :=
| ModelError (e : err)                   (* an error thrown by the Job model *)
| UnauthorizedError
| BadRequestErrors (errs : list string). (* [new BadRequestError(errs)] *)

Inductive next_arg :=
| NextOk
| NextErr (e : route_err).

(** [ensureLoggedIn] *)
Definition ensureLoggedIn (user : option payload) : next_arg :=
  if negb (user_truthy user) then NextErr UnauthorizedError else NextOk.

(** [ensureAdmin]: [!res.locals.user || !res.locals.user.isAdmin]. *)
Definition ensureAdmin (user : option payload) : next_arg :=
  match user with
  | Some p =>
      if negb (user_truthy user) || negb (truthy (user_isAdmin p))
      then NextErr UnauthorizedError else NextOk
  | None => NextErr UnauthorizedError
  end.

(** [ensureCorrectUserOrAdmin], with [req.params.username] as [param]. *)
Definition ensureCorrectUserOrAdmin (user : option payload) (param : jsval) : next_arg :=
  match user with
  | Some p =>
      if user_truthy user
         && (truthy (user_isAdmin p) || strict_eq (user_username p) param)
      then NextOk else NextErr UnauthorizedError
  | None => NextErr UnauthorizedError
  end.

(** The rest of [s] after the prefix [p], if [s] starts with it. *)
Fixpoint strip_prefix (p s : string) : option string :=
  match p, s with
  | EmptyString, _ => Some s
  | String a p', String b s' => if Ascii.eqb a b then strip_prefix p' s' else None
  | String _ _, EmptyString => None
  end.

(** [authHeader.replace(/^[Bb]earer /, "")] *)
Definition strip_bearer (s : string) : string :=
  match s with
  | String c rest =>
      if Ascii.eqb c "B"%char || Ascii.eqb c "b"%char then
        match strip_prefix "earer " rest with Some r => r | None => s end
      else s
  | EmptyString => s
  end.

Fixpoint drop_ws (l : list ascii) : list ascii :=
  match l with
  | c :: l' => if is_ws c then drop_ws l' else l
  | [] => []
  end.

(** [String.prototype.trim] *)
Definition trim (s : string) : string :=
  string_of_list_ascii (rev (drop_ws (rev (list_ascii_of_string (skip_ws s))))).

Section Auth.

(** [jwt.verify(token, SECRET_KEY)]: [None] when it throws. *)
Variable verify : string -> option payload.

(** [authenticateJWT]: the new [res.locals.user] and what is passed to
    [next].  [headers] is [req.headers] ([None] when undefined). *)
Definition authenticateJWT (headers : option obj) (user : option payload)
  : option payload * next_arg :=
  let authHeader := match headers with None => JUndefined | Some h => obj_get h "authorization" end in
  if truthy authHeader then
    match authHeader with
    | JStr s =>
        match verify (trim (strip_bearer s)) with
        | Some p => (Some p, NextOk)
        | None => (user, NextOk)       (* the verify error is caught *)
        end
    | _ => (user, NextOk)              (* no [replace]: the TypeError is caught *)
    end
  else (user, NextOk).

End Auth.

(** ** parseInt *)

(** The value of a digit in base 36 (only 0-9, a-f, A-F are needed here). *)
Definition hex_digit_value (c : ascii) : option Z :=
  let n := nat_of_ascii c in
  if (48 <=? n)%nat && (n <=? 57)%nat then Some (Z.of_nat (n - 48))
  else if (97 <=? n)%nat && (n <=? 102)%nat then Some (Z.of_nat (n - 87))
  else if (65 <=? n)%nat && (n <=? 70)%nat then Some (Z.of_nat (n - 55))
  else None.

Definition digit_value (radix : Z) (c : ascii) : option Z :=
  match hex_digit_value c with
  | Some d => if (d <? radix)%Z then Some d else None
  | None => None
  end.

(** The longest prefix of digits in [radix]: its value and length. *)
Fixpoint read_int_digits (radix : Z) (s : string) (acc : Z) (n : nat) : Z * nat :=
  match s with
  | String c s' =>
      match digit_value radix c with
      | Some d => read_int_digits radix s' (acc * radix + d)%Z (S n)
      | None => (acc, n)
      end
  | EmptyString => (acc, n)
  end.

(** An optional leading sign: whether it is [-], and the rest. *)
Definition strip_sign (s : string) : bool * string :=
  match s with
  | String c r =>
      if Ascii.eqb c "-"%char then (true, r)
      else if Ascii.eqb c "+"%char then (false, r) else (false, s)
  | EmptyString => (false, s)
  end.

(** A [0x] or [0X] prefix selects base 16. *)
Definition strip_radix_prefix (s : string) : Z * string :=
  match s with
  | String c (String x r) =>
      if Ascii.eqb c "0"%char && (Ascii.eqb x "x"%char || Ascii.eqb x "X"%char)
      then (16%Z, r) else (10%Z, s)
  | _ => (10%Z, s)
  end.

(** [parseInt(string)] with no radix: leading white space, a sign, a
    [0x]/[0X] prefix selecting base 16, then the longest digit prefix;
    NaN when there is none.  The value is kept exact. *)
Definition parseInt (str : string) : jsnum :=
  let '(neg, s) := strip_sign (skip_ws str) in
  let '(radix, s) := strip_radix_prefix s in
  let '(v, n) := read_int_digits radix s 0%Z O in
  match n with
  | O => NaN
  | S _ => Fin (if neg then (- v)%Z else v) 0
  end.

(** ** routes/jobs.js *)

(** The JSON bodies the job routes send. *)
Inductive body :=
| BJob (job : obj)              (* [{ job }] *)
| BJobs (jobs : list obj)       (* [{ jobs }] *)
| BDeleted (id : jsval)         (* [{ deleted: req.params.id }] *)
| BError (msg : string).        (* [{ error: err.message }] *)

Record response := { status : nat; rbody : body }.

(** The parts of a request the routes read.  [req_query] is a flat query
    string object, [req_id] is [req.params.id] and [req_user] is
    [res.locals.user]. *)
Record request := {
  req_user : option payload;
  req_body : obj;
  req_query : obj;
  req_id : jsval
}.

(** The filters of [GET /]: [const { title, minSalary, hasEquity } = req.query]. *)
Definition jobs_query_filters (q : obj) : job_filters :=
  let title := obj_get q "title" in
  let minSalary := obj_get q "minSalary" in
  let hasEquity := obj_get q "hasEquity" in
  {| title := if truthy title then title else JUndefined;
     minSalary :=
       if negb (strict_eq minSalary JUndefined)
       then JNum (parseInt (js_to_string minSalary)) else JUndefined;
     hasEquity := if strict_eq hasEquity (JStr "true") then JBool true else JUndefined;
     companyHandle := JUndefined |}.

Section Routes.

Context {store : Type}.
Variable query : store -> string -> list jsval -> option (store * list obj).

(** [jsonschema.validate(req.body, jobNewSchema).errors.map(e => e.stack)]
    and the same for [jobUpdateSchema]; the body is valid when it is empty. *)
Variable validate_new : obj -> list string.
Variable validate_update : obj -> list string.

(** A route: the response, or the error passed to [next]. *)
Definition R : Type := store -> (route_err + response) * store * list stmt.

(** [try { const x = await m; return res...(k x) } catch (err) { return next(err) }] *)
Definition respond {A} (m : M A) (k : A -> response) : R :=
  fun s =>
    let '(r, s', log) := m s in
    (match r with inl e => inl (ModelError e) | inr a => inr (k a) end, s', log).

(** [ensureLoggedIn, ensureAdmin, handler] *)
Definition admin_only (user : option payload) (handler : R) : R :=
  fun s =>
    match ensureLoggedIn user with
    | NextErr e => (inl e, s, [])
    | NextOk =>
        match ensureAdmin user with
        | NextErr e => (inl e, s, [])
        | NextOk => handler s
        end
    end.

(** The schema check: [throw new BadRequestError(errs)] when not valid. *)
Definition validated (errs : list string) (handler : R) : R :=
  fun s =>
    match errs with
    | _ :: _ => (inl (BadRequestErrors errs), s, [])
    | [] => handler s
    end.

(** [POST /] *)
Definition post_jobs (req : request) : R :=
  admin_only (req_user req)
    (validated (validate_new (req_body req))
       (respond (Job_create query (req_body req))
          (fun job => {| status := 201; rbody := BJob job |}))).

(** [GET /] *)
Definition get_jobs (req : request) : R :=
  respond (Job_findAll query (jobs_query_filters (req_query req)))
    (fun jobs => {| status := 200; rbody := BJobs jobs |}).

(** [GET /:id]: a [NotFoundError] becomes a 404 response. *)
Definition get_job (req : request) : R :=
  fun s =>
    let '(r, s', log) := Job_get query (req_id req) s in
    (match r with
     | inr job => inr {| status := 200; rbody := BJob job |}
     | inl (NotFoundError msg) => inr {| status := 404; rbody := BError msg |}
     | inl e => inl (ModelError e)
     end, s', log).

(** [PATCH /:id] *)
Definition patch_job (req : request) : R :=
  admin_only (req_user req)
    (validated (validate_update (req_body req))
       (respond (Job_update query (req_id req) (req_body req))
          (fun job => {| status := 200; rbody := BJob job |}))).

(** [DELETE /:id] *)
Definition delete_job (req : request) : R :=
  admin_only (req_user req)
    (respond (Job_remove query (req_id req))
       (fun _ => {| status := 200; rbody := BDeleted (req_id req) |})).

End Routes.

(** ** The Job model without equity conversion (unnamed/part_002)

    The same methods and statements as [models/job.js], returning the rows
    as the store gives them. *)

Module Variant.

Section VariantModel.

Context {store : Type}.
Variable query : store -> string -> list jsval -> option (store * list obj).

Local Notation "x <- m ;; k" := (bind m (fun x => k))
  (at level 61, m at next level, right associativity).

(** [Job.create]: [result.rows[0]], [None] when it is [undefined]. *)
Definition Job_create (data : obj) : M (option obj) :=
  let title := obj_get data "title" in
  let salary := obj_get data "salary" in
  let equity := obj_get data "equity" in
  let company_handle := obj_get data "company_handle" in
  duplicateCheck <- db_query query create_dup_sql [title; company_handle];;
  match duplicateCheck with
  | _ :: _ => throw (BadRequestError (duplicate_msg title company_handle))
  | [] =>
      result <- db_query query create_insert_sql [title; salary; equity; company_handle];;
      ret (hd_error result)
  end.

(** [Job.findAll] *)
Definition Job_findAll (f : job_filters) : M (list obj) :=
  let '(q, qv) := findAll_query f in
  jobsRes <- db_query query q qv;;
  ret jobsRes.

(** [Job.get] *)
Definition Job_get (id : jsval) : M obj :=
  jobRes <- db_query query get_sql [id];;
  match jobRes with
  | [] => throw (NotFoundError (not_found_msg id))
  | job :: _ => ret job
  end.

(** [Job.update] *)
Definition Job_update (id : jsval) (data : obj) : M obj :=
  match sqlForPartialUpdate data job_jsToSql with
  | inl e => throw e
  | inr p =>
      let jobIdIdx := "$" ++ nat_to_string (length (values p) + 1) in
      let querySql := update_sql (setCols p) jobIdIdx in
      result <- db_query query querySql (values p ++ [id]);;
      match result with
      | [] => throw (NotFoundError (not_found_msg id))
      | job :: _ => ret job
      end
  end.

End VariantModel.

End Variant.

(** The result of a method with its value passed through [f]. *)
Definition map_outcome {S A B} (f : A -> err + B) (o : (err + A) * S * list stmt)
  : (err + B) * S * list stmt :=
  let '(r, s, log) := o in
  (match r with inl e => inl e | inr a => f a end, s, log).

(** ** Properties of the middleware, the routes and the model variant *)

Lemma strict_eq_JStr (x : jsval) (t : string) :
  strict_eq x (JStr t) = true <-> x = JStr t.
Proof.
  destruct x as [| | |[]| | |]; unfold strict_eq;
    try (destruct (jsval_eq_dec _ _)); split; intro H; congruence.
Qed.

Lemma strict_eq_JUndefined (x : jsval) :
  strict_eq JUndefined x = true <-> x = JUndefined.
Proof.
  destruct x as [| | |[]| | |]; unfold strict_eq;
    try (destruct (jsval_eq_dec _ _)); split; intro H; congruence.
Qed.

Lemma ensureAdmin_err (user : option payload) (e : route_err) :
  ensureAdmin user = NextErr e -> e = UnauthorizedError.
Proof.
  unfold ensureAdmin. destruct user as [p|]; [|congruence].
  destruct (_ || _); congruence.
Qed.

Lemma ensureAdmin_ok_loggedIn (user : option payload) :
  ensureAdmin user = NextOk -> ensureLoggedIn user = NextOk.
Proof.
  unfold ensureAdmin, ensureLoggedIn. destruct user as [p|]; [|congruence].
  destruct (user_truthy (Some p)); simpl; congruence.
Qed.

Lemma strip_prefix_app (p t : string) : strip_prefix p (p ++ t) = Some t.
Proof.
  induction p as [|a p IH]; simpl; [reflexivity|].
  now rewrite Ascii.eqb_refl.
Qed.

Lemma strip_prefix_none (p s : string) :
  String.prefix p s = false -> strip_prefix p s = None.
Proof.
  revert s; induction p as [|a p IH]; intros [|b s]; simpl; try congruence.
  destruct (ascii_dec a b) as [<-|Hne].
  - rewrite Ascii.eqb_refl. apply IH.
  - intros _. destruct (Ascii.eqb a b) eqn:E; [|reflexivity].
    apply Ascii.eqb_eq in E. contradiction.
Qed.

(** X1: [ensureAdmin] lets a request through exactly when the token payload
    is an object whose [isAdmin] is truthy (a string payload never passes),
    and every other request is rejected with [UnauthorizedError]. *)
Theorem ensureAdmin_passes_iff (user : option payload) :
  (ensureAdmin user = NextOk
   <-> exists o, user = Some (PObj o) /\ truthy (obj_get o "isAdmin") = true)
  /\ (ensureAdmin user = NextOk \/ ensureAdmin user = NextErr UnauthorizedError).
Proof.
  split.
  2:{ destruct (ensureAdmin user) as [|e] eqn:E; [now left|right].
      now rewrite (ensureAdmin_err user e E). }
  unfold ensureAdmin. destruct user as [[o|s]|]; simpl.
  - destruct (truthy (obj_get o "isAdmin")) eqn:E; simpl; split; intro H;
      try discriminate; eauto.
    destruct H as [o' [H1 H2]]. inversion H1; subst. congruence.
  - rewrite orb_true_r. split; intro H; [discriminate|].
    destruct H as [o [H _]]. discriminate.
  - split; intro H; [discriminate|]. destruct H as [o [H _]]. discriminate.
Qed.

(** X2: whatever [ensureAdmin] accepts, [ensureLoggedIn] accepts too, so
    on the admin routes the first check never rejects a request the second
    would let through. *)
Theorem ensureAdmin_implies_ensureLoggedIn (user : option payload)
        (H : ensureAdmin user = NextOk) :
  ensureLoggedIn user = NextOk.
Proof. exact (ensureAdmin_ok_loggedIn user H). Qed.

Lemma ensureAdmin_implies_ensureLoggedIn_witness :
  ensureAdmin (Some (PObj [("username", JStr "admin"); ("isAdmin", JBool true)])) = NextOk
  /\ ensureLoggedIn (Some (PObj [("username", JStr "admin"); ("isAdmin", JBool true)])) = NextOk.
Proof.
  split; [reflexivity|].
  apply (ensureAdmin_implies_ensureLoggedIn
           (Some (PObj [("username", JStr "admin"); ("isAdmin", JBool true)]))).
  reflexivity.
Defined.

(** X3: [ensureCorrectUserOrAdmin] rejects a request without a user,
    accepts any admin whatever the route's username, accepts a non-admin
    object payload exactly when its [username] is strictly equal to
    [req.params.username], and accepts a non-empty string payload exactly
    when the route has no [username] parameter. *)
Theorem ensureCorrectUserOrAdmin_cases :
  (forall param, ensureCorrectUserOrAdmin None param = NextErr UnauthorizedError)
  /\ (forall o param, truthy (obj_get o "isAdmin") = true ->
        ensureCorrectUserOrAdmin (Some (PObj o)) param = NextOk)
  /\ (forall o param, truthy (obj_get o "isAdmin") = false ->
        ensureCorrectUserOrAdmin (Some (PObj o)) param = NextOk
        <-> strict_eq (obj_get o "username") param = true)
  /\ (forall s param, s <> "" ->
        ensureCorrectUserOrAdmin (Some (PStr s)) param = NextOk <-> param = JUndefined).
Proof.
  unfold ensureCorrectUserOrAdmin. split; [|split; [|split]].
  - reflexivity.
  - intros o param H. simpl. now rewrite H.
  - intros o param H. cbn -[strict_eq truthy obj_get]. rewrite H. cbn -[strict_eq].
    destruct (strict_eq _ _); split; congruence.
  - intros s param Hs. cbn -[strict_eq].
    destruct (String.eqb s "") eqn:E; [apply String.eqb_eq in E; contradiction|].
    cbn -[strict_eq]. rewrite <- strict_eq_JUndefined.
    destruct (strict_eq JUndefined param); split; congruence.
Qed.

(** X4: the bearer prefix is removed once, only at the start and only as
    [Bearer ] or [bearer ]; any other header is left as it is. *)
Theorem strip_bearer_spec :
  (forall t, strip_bearer ("Bearer " ++ t) = t)
  /\ (forall t, strip_bearer ("bearer " ++ t) = t)
  /\ (forall s, String.prefix "Bearer " s = false -> String.prefix "bearer " s = false ->
        strip_bearer s = s).
Proof.
  split; [|split].
  - intros t. reflexivity.
  - intros t. reflexivity.
  - intros [|c r] H1 H2; [reflexivity|]. unfold strip_bearer.
    destruct (Ascii.eqb c "B"%char) eqn:EB; cbn [orb].
    + apply Ascii.eqb_eq in EB; subst c. simpl in H1.
      now rewrite (strip_prefix_none "earer " r H1).
    + destruct (Ascii.eqb c "b"%char) eqn:Eb; [|reflexivity].
      apply Ascii.eqb_eq in Eb; subst c. simpl in H2.
      now rewrite (strip_prefix_none "earer " r H2).
Qed.

(** X5: [authenticateJWT] always calls [next()] without an error; it
    leaves [res.locals.user] as it was when there is no truthy
    authorization header, and for a header [Bearer t] or [bearer t] it
    stores what [jwt.verify] returns for the trimmed [t], keeping the old
    user when verification throws. *)
Theorem authenticateJWT_spec (verify : string -> option payload) :
  (forall headers user, snd (authenticateJWT verify headers user) = NextOk)
  /\ (forall user, fst (authenticateJWT verify None user) = user)
  /\ (forall h user, truthy (obj_get h "authorization") = false ->
        fst (authenticateJWT verify (Some h) user) = user)
  /\ (forall h user t,
        obj_get h "authorization" = JStr ("Bearer " ++ t)
        \/ obj_get h "authorization" = JStr ("bearer " ++ t) ->
        fst (authenticateJWT verify (Some h) user)
        = match verify (trim t) with Some p => Some p | None => user end).
Proof.
  unfold authenticateJWT. split; [|split; [|split]].
  - intros headers user.
    destruct (truthy _); [|reflexivity].
    destruct (match headers with None => JUndefined | Some h => obj_get h "authorization" end);
      try reflexivity.
    destruct (verify _); reflexivity.
  - reflexivity.
  - intros h user H. now rewrite H.
  - intros h user t [H|H]; rewrite H; cbn -[trim];
      destruct (verify (trim t)); reflexivity.
Qed.

Lemma ensureLoggedIn_err (user : option payload) (e : route_err) :
  ensureLoggedIn user = NextErr e -> e = UnauthorizedError.
Proof. unfold ensureLoggedIn. destruct (negb _); congruence. Qed.

Lemma admin_only_reject {store : Type} (user : option payload) (h : @R store) (s : store) :
  ensureAdmin user <> NextOk -> admin_only user h s = (inl UnauthorizedError, s, []).
Proof.
  intros H. unfold admin_only.
  destruct (ensureLoggedIn user) as [|e] eqn:EL.
  - destruct (ensureAdmin user) as [|e] eqn:EA; [contradiction|].
    now rewrite (ensureAdmin_err user e EA).
  - now rewrite (ensureLoggedIn_err user e EL).
Qed.

Lemma admin_only_accept {store : Type} (user : option payload) (h : @R store) (s : store) :
  ensureAdmin user = NextOk -> admin_only user h s = h s.
Proof.
  intros H. unfold admin_only.
  now rewrite (ensureAdmin_ok_loggedIn user H), H.
Qed.

(** X6: on [POST /jobs], [PATCH /jobs/:id] and [DELETE /jobs/:id] a
    request whose user [ensureAdmin] does not accept ends in
    [UnauthorizedError], issues no statement and leaves the store as it
    was. *)
Theorem admin_routes_reject_non_admin {store : Type}
        (query : store -> string -> list jsval -> option (store * list obj))
        (validate_new validate_update : obj -> list string) (req : request) (s : store)
        (H : ensureAdmin (req_user req) <> NextOk) :
  post_jobs query validate_new req s = (inl UnauthorizedError, s, [])
  /\ patch_job query validate_update req s = (inl UnauthorizedError, s, [])
  /\ delete_job query req s = (inl UnauthorizedError, s, []).
Proof.
  unfold post_jobs, patch_job, delete_job.
  split; [|split]; now apply admin_only_reject.
Qed.

Lemma admin_routes_reject_non_admin_witness :
  let req := {| req_user := Some (PObj [("username", JStr "u1"); ("isAdmin", JBool false)]);
                req_body := [("title", JStr "J1")]; req_query := []; req_id := JStr "1" |} in
  ensureAdmin (req_user req) <> NextOk
  /\ (post_jobs mem_query (fun _ => []) req mem_empty = (inl UnauthorizedError, mem_empty, [])
      /\ patch_job mem_query (fun _ => []) req mem_empty = (inl UnauthorizedError, mem_empty, [])
      /\ delete_job mem_query req mem_empty = (inl UnauthorizedError, mem_empty, [])).
Proof.
  intros req. split.
  - intro Hc. vm_compute in Hc. discriminate Hc.
  - apply (admin_routes_reject_non_admin mem_query (fun _ => []) (fun _ => []) req mem_empty).
    intro Hc. vm_compute in Hc. discriminate Hc.
Defined.

(** X7: for an admin, a body the job schema rejects ends in a
    [BadRequestError] carrying the validator's messages, before the model is
    called: no statement is issued and the store is unchanged. *)
Theorem job_routes_reject_invalid_body {store : Type}
        (query : store -> string -> list jsval -> option (store * list obj))
        (validate_new validate_update : obj -> list string) (req : request) (s : store)
        (Hadmin : ensureAdmin (req_user req) = NextOk) :
  (validate_new (req_body req) <> [] ->
   post_jobs query validate_new req s
   = (inl (BadRequestErrors (validate_new (req_body req))), s, []))
  /\ (validate_update (req_body req) <> [] ->
      patch_job query validate_update req s
      = (inl (BadRequestErrors (validate_update (req_body req))), s, [])).
Proof.
  unfold post_jobs, patch_job.
  split; intros Hv; rewrite (admin_only_accept _ _ _ Hadmin); unfold validated.
  - destruct (validate_new (req_body req)); [contradiction|reflexivity].
  - destruct (validate_update (req_body req)); [contradiction|reflexivity].
Qed.

Lemma job_routes_reject_invalid_body_witness :
  let req := {| req_user := Some (PObj [("username", JStr "admin"); ("isAdmin", JBool true)]);
                req_body := [("salary", JStr "high")]; req_query := []; req_id := JStr "1" |} in
  let v := fun (_ : obj) => ["instance.salary is not of a type(s) integer"] in
  ensureAdmin (req_user req) = NextOk
  /\ ((v (req_body req) <> [] ->
       post_jobs mem_query v req mem_empty
       = (inl (BadRequestErrors (v (req_body req))), mem_empty, []))
      /\ (v (req_body req) <> [] ->
          patch_job mem_query v req mem_empty
          = (inl (BadRequestErrors (v (req_body req))), mem_empty, []))).
Proof.
  intros req v. split; [reflexivity|].
  apply (job_routes_reject_invalid_body mem_query v v req mem_empty).
  reflexivity.
Defined.

(** X8: [GET /jobs/:id] answers from the single [get_sql] statement: a
    store failure is passed on, no row gives a 404 response with the
    message [No job: <id>] (the [NotFoundError] is never passed on), and a
    row gives a 200 response with the row after the equity conversion. *)
Theorem get_job_outcomes {store : Type}
        (query : store -> string -> list jsval -> option (store * list obj))
        (req : request) (s : store) :
  get_job query req s =
    match query s get_sql [req_id req] with
    | None => (inl (ModelError StoreError), s, [mk_stmt get_sql [req_id req]])
    | Some (s1, []) =>
        (inr {| status := 404; rbody := BError (not_found_msg (req_id req)) |}, s1,
         [mk_stmt get_sql [req_id req]])
    | Some (s1, job :: _) =>
        (inr {| status := 200; rbody := BJob (normalize_equity job) |}, s1,
         [mk_stmt get_sql [req_id req]])
    end.
Proof.
  unfold get_job. rewrite Job_get_steps.
  destruct (query s get_sql [req_id req]) as [[s1 [|job rows]]|]; reflexivity.
Qed.

(** X9: for an admin, [DELETE /jobs/:id] answers from the single
    [delete_sql] statement: no row passes the [NotFoundError] on (it is not
    turned into a 404 as on [GET]), a row gives [{ deleted: req.params.id }]. *)
Theorem delete_job_outcomes {store : Type}
        (query : store -> string -> list jsval -> option (store * list obj))
        (req : request) (s : store)
        (Hadmin : ensureAdmin (req_user req) = NextOk) :
  delete_job query req s =
    match query s delete_sql [req_id req] with
    | None => (inl (ModelError StoreError), s, [mk_stmt delete_sql [req_id req]])
    | Some (s1, []) =>
        (inl (ModelError (NotFoundError (not_found_msg (req_id req)))), s1,
         [mk_stmt delete_sql [req_id req]])
    | Some (s1, _ :: _) =>
        (inr {| status := 200; rbody := BDeleted (req_id req) |}, s1,
         [mk_stmt delete_sql [req_id req]])
    end.
Proof.
  unfold delete_job. rewrite (admin_only_accept _ _ _ Hadmin).
  unfold respond. rewrite Job_remove_steps.
  destruct (query s delete_sql [req_id req]) as [[s1 [|r rows]]|]; reflexivity.
Qed.

Lemma delete_job_outcomes_witness :
  let req := {| req_user := Some (PObj [("username", JStr "admin"); ("isAdmin", JBool true)]);
                req_body := []; req_query := []; req_id := jsint 1 |} in
  ensureAdmin (req_user req) = NextOk
  /\ delete_job mem_query req mem_empty =
     match mem_query mem_empty delete_sql [req_id req] with
     | None => (inl (ModelError StoreError), mem_empty, [mk_stmt delete_sql [req_id req]])
     | Some (s1, []) =>
         (inl (ModelError (NotFoundError (not_found_msg (req_id req)))), s1,
          [mk_stmt delete_sql [req_id req]])
     | Some (s1, _ :: _) =>
         (inr {| status := 200; rbody := BDeleted (req_id req) |}, s1,
          [mk_stmt delete_sql [req_id req]])
     end.
Proof.
  intros req. split; [reflexivity|].
  apply (delete_job_outcomes mem_query req mem_empty). reflexivity.
Defined.

Lemma jobs_query_where (q : obj) :
  let t := obj_get q "title" in
  let m := obj_get q "minSalary" in
  let h := obj_get q "hasEquity" in
  findAll_where (jobs_query_filters q)
  = {| whereExpressions :=
         (if truthy t then ["title ILIKE $1"] else [])
         ++ (if negb (strict_eq m JUndefined)
             then ["salary >= $" ++ nat_to_string (if truthy t then 2 else 1)] else [])
         ++ (if strict_eq h (JStr "true") then ["equity > 0"] else []);
       queryValues :=
         (if truthy t then [JStr ("%" ++ js_to_string t ++ "%")] else [])
         ++ (if negb (strict_eq m JUndefined) then [JNum (parseInt (js_to_string m))] else []) |}.
Proof.
  intros t m h.
  unfold findAll_where, add_companyHandle, add_hasEquity, add_minSalary, add_title, jobs_query_filters;
    cbn [title minSalary hasEquity companyHandle].
  fold t m h.
  destruct (truthy t) eqn:Et;
  destruct (negb (strict_eq m JUndefined)) eqn:Em;
  destruct (strict_eq h (JStr "true")) eqn:Eh; rewrite ?Et; cbn;
  try (destruct (parseInt (js_to_string m))); reflexivity.
Qed.

(** X10: the filters [GET /jobs] builds from the query string never
    include a company: no [company_handle] predicate is ever emitted, and the
    [equity > 0] predicate is there exactly when the query's [hasEquity] is
    the string [true]. *)
Theorem get_jobs_filters (q : obj) :
  companyHandle (jobs_query_filters q) = JUndefined
  /\ (forall e, In e (whereExpressions (findAll_where (jobs_query_filters q))) ->
        String.prefix "company_handle" e = false)
  /\ (In "equity > 0" (whereExpressions (findAll_where (jobs_query_filters q)))
      <-> obj_get q "hasEquity" = JStr "true").
Proof.
  pose proof (jobs_query_where q) as W. cbv zeta in W. rewrite W. cbn [whereExpressions].
  split; [reflexivity|].
  destruct (truthy (obj_get q "title"));
  destruct (negb (strict_eq (obj_get q "minSalary") JUndefined));
  destruct (strict_eq (obj_get q "hasEquity") (JStr "true")) eqn:Eh; simpl;
  (split; [intros e He; repeat destruct He as [<-|He]; try reflexivity; contradiction|]);
  (split; intros H;
   [ first [ apply strict_eq_JStr; exact Eh
           | repeat destruct H as [H|H]; try discriminate; contradiction ]
   | first [ apply strict_eq_JStr in H; congruence | auto 10 ] ]).
Qed.

(** A text none of whose characters is a decimal digit. *)
Definition no_digit (s : string) : Prop :=
  forall c, In c (list_ascii_of_string s) -> is_digit c = false.

Lemma no_digit_skip_ws (s : string) : no_digit s -> no_digit (skip_ws s).
Proof.
  induction s as [|c s IH]; simpl; [tauto|]. intros H.
  destruct (is_ws c); [|exact H].
  apply IH. intros c' Hc'. apply H. simpl. now right.
Qed.

Lemma no_digit_strip_sign (s : string) : no_digit s -> no_digit (snd (strip_sign s)).
Proof.
  intros H. destruct s as [|c r]; [exact H|]. simpl.
  assert (Hr : no_digit r) by (intros c' Hc'; apply H; simpl; now right).
  destruct (Ascii.eqb c "-"%char); [exact Hr|].
  destruct (Ascii.eqb c "+"%char); [exact Hr|exact H].
Qed.

Lemma strip_radix_prefix_no_digit (s : string) :
  no_digit s -> strip_radix_prefix s = (10%Z, s).
Proof.
  intros H. destruct s as [|c [|x r]]; try reflexivity. simpl.
  destruct (Ascii.eqb c "0"%char) eqn:E; [|reflexivity].
  apply Ascii.eqb_eq in E. subst c.
  specialize (H "0"%char (or_introl eq_refl)). discriminate H.
Qed.

Lemma digit_value_10 (c : ascii) : digit_value 10 c <> None -> is_digit c = true.
Proof.
  unfold digit_value, hex_digit_value, is_digit.
  remember (nat_of_ascii c) as n.
  destruct ((48 <=? n)%nat && (n <=? 57)%nat) eqn:E1; [intros _; reflexivity|].
  destruct ((97 <=? n)%nat && (n <=? 102)%nat) eqn:E2.
  - apply andb_true_iff in E2. destruct E2 as [E2 _]. apply Nat.leb_le in E2.
    destruct (Z.of_nat (n - 87) <? 10)%Z eqn:E3; [|congruence].
    apply Z.ltb_lt in E3. lia.
  - destruct ((65 <=? n)%nat && (n <=? 70)%nat) eqn:E3; [|congruence].
    apply andb_true_iff in E3. destruct E3 as [E3 _]. apply Nat.leb_le in E3.
    destruct (Z.of_nat (n - 55) <? 10)%Z eqn:E4; [|congruence].
    apply Z.ltb_lt in E4. lia.
Qed.

Lemma read_int_digits_no_digit (s : string) (acc : Z) (n : nat) :
  no_digit s -> read_int_digits 10 s acc n = (acc, n).
Proof.
  intros H. destruct s as [|c r]; [reflexivity|]. simpl.
  destruct (digit_value 10 c) eqn:E; [|reflexivity].
  exfalso. assert (Hd : is_digit c = true) by (apply digit_value_10; congruence).
  rewrite (H c (or_introl eq_refl)) in Hd. discriminate.
Qed.

(** [parseInt] of a text without any decimal digit is NaN. *)
Lemma parseInt_no_digit (s : string) : no_digit s -> parseInt s = NaN.
Proof.
  intros H. unfold parseInt.
  pose proof (no_digit_strip_sign _ (no_digit_skip_ws s H)) as Hr.
  destruct (strip_sign (skip_ws s)) as [neg r]. simpl in Hr.
  rewrite (strip_radix_prefix_no_digit r Hr).
  rewrite (read_int_digits_no_digit r 0 0 Hr). reflexivity.
Qed.

(** X11: any [minSalary] in the query string, numeric or not, adds a
    [salary >= $k] predicate whose parameter is [parseInt] of the text; for
    a text without any decimal digit that parameter is NaN. *)
Theorem get_jobs_minSalary_param (q : obj) (s : string)
        (H : obj_get q "minSalary" = JStr s) :
  exists k,
    In ("salary >= $" ++ nat_to_string k) (whereExpressions (findAll_where (jobs_query_filters q)))
    /\ nth_error (queryValues (findAll_where (jobs_query_filters q))) (k - 1)
       = Some (JNum (parseInt s))
    /\ (no_digit s ->
        nth_error (queryValues (findAll_where (jobs_query_filters q))) (k - 1)
        = Some (JNum NaN)).
Proof.
  pose proof (jobs_query_where q) as W. cbv zeta in W. rewrite W, H.
  cbn [whereExpressions queryValues strict_eq negb js_to_string].
  destruct (truthy (obj_get q "title")).
  - exists 2. simpl. split; [auto|]. split; [reflexivity|].
    intros Hs. now rewrite (parseInt_no_digit s Hs).
  - exists 1. simpl. split; [auto|]. split; [reflexivity|].
    intros Hs. now rewrite (parseInt_no_digit s Hs).
Qed.

Lemma get_jobs_minSalary_param_witness :
  obj_get [("minSalary", JStr "abc")] "minSalary" = JStr "abc"
  /\ exists k,
    In ("salary >= $" ++ nat_to_string k)
       (whereExpressions (findAll_where (jobs_query_filters [("minSalary", JStr "abc")])))
    /\ nth_error (queryValues (findAll_where (jobs_query_filters [("minSalary", JStr "abc")]))) (k - 1)
       = Some (JNum NaN).
Proof.
  split; [reflexivity|].
  destruct (get_jobs_minSalary_param [("minSalary", JStr "abc")] "abc" eq_refl)
    as [k [Hin [_ Hnan]]].
  exists k. split; [exact Hin|]. apply Hnan.
  intros c Hc. simpl in Hc.
  destruct Hc as [<-|[<-|[<-|[]]]]; reflexivity.
Defined.

(** X12: [models/job.js] behaves as the variant in [unnamed/part_002] with
    the equity conversion applied to every returned row: same statements,
    same store effects and errors; only where the insert returns no row does
    the variant return [undefined] while [models/job.js] throws a
    [TypeError]. *)
Theorem job_model_normalizes_variant {store : Type}
        (query : store -> string -> list jsval -> option (store * list obj)) :
  (forall data s,
      Job_create query data s
      = map_outcome (fun j => match j with Some j => inr (normalize_equity j) | None => inl TypeError end)
                    (Variant.Job_create query data s))
  /\ (forall f s,
      Job_findAll query f s
      = map_outcome (fun rows => inr (map normalize_equity rows)) (Variant.Job_findAll query f s))
  /\ (forall id s,
      Job_get query id s
      = map_outcome (fun j => inr (normalize_equity j)) (Variant.Job_get query id s))
  /\ (forall id data s,
      Job_update query id data s
      = map_outcome (fun j => inr (normalize_equity j)) (Variant.Job_update query id data s)).
Proof.
  unfold Job_create, Variant.Job_create, Job_findAll, Variant.Job_findAll, Job_get, Variant.Job_get,
    Job_update, Variant.Job_update, bind, db_query, ret, throw, map_outcome.
  split; [|split; [|split]].
  - intros data s.
    destruct (query s create_dup_sql _) as [[s1 [|r rows]]|]; [|reflexivity|reflexivity].
    destruct (query s1 create_insert_sql _) as [[s2 [|r rows]]|]; reflexivity.
  - intros f s. destruct (findAll_query f) as [q qv].
    destruct (query s q qv) as [[s1 rows]|]; reflexivity.
  - intros id s. destruct (query s get_sql [id]) as [[s1 [|r rows]]|]; reflexivity.
  - intros id data s. destruct (sqlForPartialUpdate data job_jsToSql) as [e|p]; [reflexivity|].
    destruct (query s _ _) as [[s1 [|r rows]]|]; reflexivity.
Qed.

Lemma own_prop_obj_set_other (o : obj) (k k' : string) (v : jsval) :
  k <> k' -> own_prop (obj_set o k v) k' = own_prop o k'.
Proof.
  intros Hne. induction o as [|[k0 v0] o IH]; simpl.
  - destruct (String.eqb k' k) eqn:E; [apply String.eqb_eq in E; congruence|reflexivity].
  - destruct (String.eqb k k0) eqn:E; simpl.
    + apply String.eqb_eq in E; subst k0.
      destruct (String.eqb k' k) eqn:E'; [apply String.eqb_eq in E'; congruence|reflexivity].
    + now rewrite IH.
Qed.

Lemma obj_keys_obj_set_own (o : obj) (k : string) (v : jsval) :
  own_prop o k <> None -> obj_keys (obj_set o k v) = obj_keys o.
Proof.
  induction o as [|[k0 v0] o IH]; simpl; [congruence|].
  destruct (String.eqb k k0); simpl; [reflexivity|].
  intros H. now rewrite (IH H).
Qed.

Lemma obj_keys_obj_set_new (o : obj) (k : string) (v : jsval) :
  own_prop o k = None -> obj_keys (obj_set o k v) = app (obj_keys o) [k].
Proof.
  induction o as [|[k0 v0] o IH]; simpl; [reflexivity|].
  destruct (String.eqb k k0); simpl; [congruence|].
  intros H. now rewrite (IH H).
Qed.

(** X13: the equity conversion changes no other field; it keeps the keys of
    a row that has an own [equity] field, and adds [equity: NaN] as the last
    key of a row that has none. *)
Theorem normalize_equity_other_fields :
  (forall job k, k <> "equity" -> obj_get (normalize_equity job) k = obj_get job k)
  /\ (forall job, own_prop job "equity" <> None ->
        obj_keys (normalize_equity job) = obj_keys job)
  /\ (forall job, own_prop job "equity" = None ->
        obj_keys (normalize_equity job) = app (obj_keys job) ["equity"]
        /\ obj_get (normalize_equity job) "equity" = JNum NaN).
Proof.
  unfold normalize_equity. split; [|split].
  - intros job k Hk. destruct (strict_eq (obj_get job "equity") JNull); [reflexivity|].
    unfold obj_get at 1. rewrite own_prop_obj_set_other by congruence. reflexivity.
  - intros job H. destruct (strict_eq (obj_get job "equity") JNull); [reflexivity|].
    now apply obj_keys_obj_set_own.
  - intros job H.
    assert (E : obj_get job "equity" = JUndefined) by (unfold obj_get; now rewrite H).
    rewrite E. cbn -[obj_set obj_get].
    split; [now apply obj_keys_obj_set_new | apply obj_get_obj_set].
Qed.

Lemma resolve_job_jsToSql (k : string) : resolve job_jsToSql k = resolve [] k.
Proof.
  unfold resolve, obj_get. cbn [own_prop job_jsToSql].
  destruct (String.eqb k "title") eqn:E1; [apply String.eqb_eq in E1; now subst|].
  destruct (String.eqb k "salary") eqn:E2; [apply String.eqb_eq in E2; now subst|].
  destruct (String.eqb k "equity") eqn:E3; [apply String.eqb_eq in E3; now subst|].
  reflexivity.
Qed.

Lemma map_cols_job_jsToSql (keys : list string) (idx : nat) :
  map_cols job_jsToSql idx keys = map_cols [] idx keys.
Proof.
  revert idx. induction keys as [|k keys IH]; intros idx; simpl; [reflexivity|].
  now rewrite resolve_job_jsToSql, IH.
Qed.

(** X14: the column mapping [Job.update] passes to [sqlForPartialUpdate]
    renames nothing: the update is built exactly as with an empty mapping. *)
Theorem Job_update_mapping_is_identity (data : obj) :
  sqlForPartialUpdate data job_jsToSql = sqlForPartialUpdate data [].
Proof.
  unfold sqlForPartialUpdate. now rewrite map_cols_job_jsToSql.
Qed.
